(** * Centipede work directory layout (centipede/workdir.cc)

    A shallow embedding of [centipede::WorkDir] and
    [centipede::WorkDir::ShardedFileInfo], together with the parts of
    [std::filesystem::path] (POSIX pathnames) and of Abseil ([StrCat],
    [StrFormat], [SimpleAtoi]) that workdir.cc calls, followed by the
    properties of the naming scheme; then the containers and readers of
    fuzztest/llvm_fuzzer_wrapper.cc.

    Conventions: [std::string] and [std::string_view] are [string];
    [size_t] is [N] (64 bits, the bound is written out where the code
    depends on it); a failed [CHECK] is the [CheckFailure] result of the
    [Checked] monad; [LOG(ERROR)] lines are returned next to the result; a
    call that throws has the result [Thrown]. *)

From Stdlib Require Import Strings.String Strings.Ascii.
From Stdlib Require Import Lists.List NArith.NArith Arith.Arith Bool.Bool.
From Stdlib Require Import micromega.Lia.
From Stdlib Require Import ZArith.ZArith Strings.Byte.
Import ListNotations.

Open Scope string_scope.

(** ** Characters and strings *)

Definition is_char (x c : ascii) : bool := Ascii.eqb c x.

(** [s.find(x) != npos]. *)
Fixpoint contains (x : ascii) (s : string) : bool :=
  match s with
  | EmptyString => false
  | String c r => is_char x c || contains x r
  end.

(** Number of occurrences of [x] in [s]. *)
Fixpoint count_char (x : ascii) (s : string) : nat :=
  match s with
  | EmptyString => 0
  | String c r => (if is_char x c then 1 else 0) + count_char x r
  end.

(** Splits [s] at the last occurrence of [x]: the text up to and including it
    (empty when [x] does not occur) and the text after it. *)
Fixpoint rsplit (x : ascii) (s : string) : string * string :=
  match s with
  | EmptyString => (EmptyString, EmptyString)
  | String c r =>
      match rsplit x r with
      | (EmptyString, f) =>
          if is_char x c then (String c EmptyString, f)
          else (EmptyString, String c f)
      | (d, f) => (String c d, f)
      end
  end.

(** Removes the longest suffix of characters satisfying [p]. *)
Fixpoint rstrip (p : ascii -> bool) (s : string) : string :=
  match s with
  | EmptyString => EmptyString
  | String c r =>
      match rstrip p r with
      | EmptyString => if p c then EmptyString else String c EmptyString
      | r' => String c r'
      end
  end.

(** Removes the longest prefix of characters satisfying [p]. *)
Fixpoint lstrip (p : ascii -> bool) (s : string) : string :=
  match s with
  | EmptyString => EmptyString
  | String c r => if p c then lstrip p r else s
  end.

Fixpoint all_chars (p : ascii -> bool) (s : string) : bool :=
  match s with
  | EmptyString => true
  | String c r => p c && all_chars p r
  end.

Fixpoint repeat_char (c : ascii) (n : nat) : string :=
  match n with
  | O => EmptyString
  | S n' => String c (repeat_char c n')
  end.

Fixpoint remove_last (s : string) : string :=
  match s with
  | EmptyString => EmptyString
  | String c EmptyString => EmptyString
  | String c r => String c (remove_last r)
  end.

Definition is_digit (c : ascii) : bool :=
  let n := N_of_ascii c in ((48 <=? n) && (n <=? 57))%N.

(** ** [std::filesystem::path] on POSIX pathnames

    The pathname is kept as the string the path was built from, as
    [std::filesystem::path] does; the directory separator is ["/"] and there
    are no root names. *)

Module fs.

Definition sep : ascii := "/"%char.
Definition dot : ascii := "."%char.

(** [path::filename()]: the text after the last separator. *)
Definition filename (p : string) : string := snd (rsplit sep p).

Definition has_filename (p : string) : bool :=
  negb (String.eqb (filename p) EmptyString).

(** On POSIX a path is absolute exactly when it has a root directory. *)
Definition is_absolute (p : string) : bool :=
  match p with
  | String c _ => is_char sep c
  | EmptyString => false
  end.

(** [path::has_relative_path()]: something else than separators is left. *)
Definition has_relative_path (p : string) : bool :=
  negb (String.eqb (rstrip (is_char sep) p) EmptyString).

(** [operator/]: an absolute right operand replaces the left one; otherwise
    a separator is added when the left operand has a filename. *)
Definition append (p q : string) : string :=
  if is_absolute q then q
  else if has_filename p then p ++ String sep q
  else p ++ q.

(** [path::parent_path()]: the path itself when it has no relative path,
    otherwise the pathname up to the end of the element before the last one
    (the root directory counts as the one-character element ["/"]). *)
Definition parent_path (p : string) : string :=
  if has_relative_path p then
    let d := fst (rsplit sep p) in
    match rstrip (is_char sep) d with
    | EmptyString =>
        match d with
        | EmptyString => EmptyString
        | String c _ => String c EmptyString
        end
    | d' => d'
    end
  else p.

(** Splits a filename into stem and extension: ["."], [".."] and names
    whose only dot is the first character have no extension; otherwise the
    extension starts at the last dot. *)
Definition split_extension (f : string) : string * string :=
  if String.eqb f "." || String.eqb f ".." then (f, EmptyString)
  else
    match rsplit dot f with
    | (String c (String c' d), e) =>
        (remove_last (String c (String c' d)), String dot e)
    | _ => (f, EmptyString)
    end.

(** [path::stem()]. *)
Definition stem (p : string) : string := fst (split_extension (filename p)).

(** [path::extension()]. *)
Definition extension (p : string) : string :=
  snd (split_extension (filename p)).

End fs.

(** ** Abseil string functions *)

Module absl.

(** [absl::StrCat]. *)
Definition StrCat (pieces : list string) : string :=
  fold_right String.append EmptyString pieces.

Definition digit_char (d : N) : ascii := ascii_of_N (48 + d).

(** Decimal digits of [n], most significant first, in front of [acc]; one
    digit per unit of [fuel]. *)
Fixpoint decimal_aux (fuel : nat) (n : N) (acc : string) : string :=
  match fuel with
  | O => acc
  | S fuel' =>
      let acc' := String (digit_char (n mod 10)) acc in
      if (n / 10 =? 0)%N then acc' else decimal_aux fuel' (n / 10) acc'
  end.

(** The [%d] rendering of an unsigned value; a number has no more decimal
    digits than binary ones. *)
Definition decimal (n : N) : string :=
  decimal_aux (S (N.to_nat (N.size n))) n EmptyString.

(** The flag [0] with a minimum field width: zeros are added on the left
    up to [width] characters, and nothing is ever cut. *)
Definition zero_pad (width : nat) (s : string) : string :=
  repeat_char "0" (width - String.length s) ++ s.

(** Arguments of [absl::StrFormat]: a string for [%s], an [int] for the
    [*] of a field width (never negative here), a [size_t] for [%d]. *)
Inductive FormatArg : Type :=
| ArgString (s : string)
| ArgWidth (w : nat)
| ArgSize (n : N).

(** [absl::StrFormat] for the conversions workdir.cc uses: [%s] and [%0*d].
    Abseil checks the format against the argument types at compile time, so
    the mismatch branches are never taken. *)
Fixpoint StrFormat (format : string) (args : list FormatArg) : string :=
  match format with
  | EmptyString => EmptyString
  | String "%" (String "s" rest) =>
      match args with
      | ArgString s :: args' => s ++ StrFormat rest args'
      | _ => EmptyString
      end
  | String "%" (String "0" (String "*" (String "d" rest))) =>
      match args with
      | ArgWidth w :: ArgSize n :: args' =>
          zero_pad w (decimal n) ++ StrFormat rest args'
      | _ => EmptyString
      end
  | String c rest => String c (StrFormat rest args)
  end.

(** [absl::ascii_isspace]: space, [\t], [\n], [\v], [\f], [\r]. *)
Definition ascii_isspace (c : ascii) : bool :=
  let n := N_of_ascii c in ((n =? 32) || ((9 <=? n) && (n <=? 13)))%N.

(** [std::numeric_limits<size_t>::max()]. *)
Definition vmax : N := 18446744073709551615.
Definition vmax_over_base : N := vmax / 10.

(** [kAsciiToInt] as far as base 10 sees it: a digit's value, and a value
    that is no digit for every other character. *)
Definition kAsciiToInt (c : ascii) : N :=
  if is_digit c then N_of_ascii c - 48 else 36.

(** [safe_parse_sign_and_base] for base 10: surrounding whitespace is
    dropped, one sign character is consumed, and something must be left
    after each step. The result is the remaining text and the sign. *)
Definition safe_parse_sign_and_base (text : string) : option (string * bool) :=
  match rstrip ascii_isspace (lstrip ascii_isspace text) with
  | EmptyString => None
  | String c rest =>
      let negative := is_char "-" c in
      if negative || is_char "+" c then
        match rest with
        | EmptyString => None
        | _ => Some (rest, negative)
        end
      else Some (String c rest, negative)
  end.

(** [safe_parse_positive_int<uint64_t>] for base 10, [value] being the
    number read so far: fails on a character that is no digit and on
    overflow. *)
Fixpoint safe_parse_positive_int (text : string) (value : N) : option N :=
  match text with
  | EmptyString => Some value
  | String c rest =>
      let digit := kAsciiToInt c in
      if (10 <=? digit)%N then None
      else if (vmax_over_base <? value)%N then None
      else
        let value' := (value * 10)%N in
        if (vmax - digit <? value')%N then None
        else safe_parse_positive_int rest (value' + digit)
  end.

(** [absl::SimpleAtoi] into a [size_t]: [None] is the result [false]. *)
Definition SimpleAtoi (str : string) : option N :=
  match safe_parse_sign_and_base str with
  | None => None
  | Some (text, negative) =>
      if negative then None else safe_parse_positive_int text 0
  end.

End absl.

(** ** [CHECK] failures and logging *)

(** The result of code that may stop at a failed [CHECK]: the failure keeps
    the text of the violated condition and the message streamed into it. *)
Inductive Checked (A : Type) : Type :=
| Ok (a : A)
| CheckFailure (condition message : string).

Arguments Ok {A} a.
Arguments CheckFailure {A} condition message.

Definition bind {A B : Type} (m : Checked A) (k : A -> Checked B) : Checked B :=
  match m with
  | Ok a => k a
  | CheckFailure condition message => CheckFailure condition message
  end.

Notation "x <- m ;; k" := (bind m (fun x => k))
  (at level 61, m at next level, right associativity).
Notation "m ;; k" := (bind m (fun _ => k))
  (at level 61, right associativity).

Definition CHECK (holds : bool) (condition message : string) : Checked unit :=
  if holds then Ok tt else CheckFailure condition message.

(** Modelled from the spec: the macro [VV] of centipede/logging.h is not part
    of the sources; the diagnostic names the streamed expression and shows
    its value. *)
Definition VV (name value : string) : string := name ++ ": " ++ value ++ " ".

(** The lines written with [LOG(ERROR)], next to the value returned. *)
Definition Logged (A : Type) : Type := (list string * A)%type.

(** ** The file system seen by [std::filesystem::directory_iterator] *)

(** The result of a call that may throw [std::filesystem::filesystem_error]:
    the value returned, or what the exception says. *)
Inductive Outcome (A : Type) : Type :=
| Returned (a : A)
| Thrown (what : string).

Arguments Returned {A} a.
Arguments Thrown {A} what.

(** What reading a directory gives, one read after the other: the end of
    the directory, an error of the read, or the name of an entry directly
    inside the directory, with what the status query behind
    [is_regular_file()] does for it, and the reads that follow. The first
    read is done by the constructor of the iterator, the others by its
    [operator++]. *)
Inductive directory_stream : Type :=
| end_of_directory
| read_error (message : string)
| read_entry (name : string) (status : Outcome bool) (next : directory_stream).

Definition FileSystem : Type := string -> directory_stream.

(** [entry.path()] and [entry.is_regular_file()], the overload that
    throws. *)
Record directory_entry : Type := {
  path : string;
  is_regular_file : Outcome bool
}.

(** [std::filesystem::directory_iterator(dir_path, dir_error)]: the error
    of the first read goes to [dir_error]; otherwise the iterator stands on
    what was read. *)
Definition directory_iterator (disk : FileSystem) (dir_path : string)
  : string + directory_stream :=
  match disk dir_path with
  | read_error dir_error => inl dir_error
  | dir_iter => inr dir_iter
  end.

(** ** workdir.cc *)

(** Modelled from the spec: [kDigitsInShardIndex] is declared in
    centipede/workdir.h, which is not part of the sources; the spec gives
    the digit width 6. *)
Definition kDigitsInShardIndex : nat := 6.

Definition kCorpusShardStem : string := "corpus".

(** If [annotation] is empty, returns an empty string. Otherwise, verifies
    that it does not start with a dot and returns it with a dot prepended. *)
Definition NormalizeAnnotation (annotation : string) : Checked string :=
  match annotation with
  | EmptyString => Ok EmptyString
  | String front _ =>
      CHECK (negb (is_char "." front)) "annotation.front() != '.'" "" ;;
      Ok (absl.StrCat ["."; annotation])
  end.

(** *** [WorkDir::ShardedFileInfo] *)

Module ShardedFileInfo.

Record t : Type := {
  prefix_ : string;
  my_shard_index_ : N
}.

Definition make (base_dir rel_prefix : string) (my_shard_index : N) : t :=
  {| prefix_ := fs.append base_dir rel_prefix;
     my_shard_index_ := my_shard_index |}.

Definition ShardPath (self : t) (shard_index : N) : string :=
  absl.StrFormat "%s%0*d"
    [absl.ArgString (prefix_ self); absl.ArgWidth kDigitsInShardIndex;
     absl.ArgSize shard_index].

Definition MyShardPath (self : t) : string :=
  ShardPath self (my_shard_index_ self).

Definition AllShardsGlob (self : t) : string :=
  absl.StrCat [prefix_ self; "*"].

End ShardedFileInfo.

(** *** [WorkDir] *)

Module Environment.

(** The fields of [centipede::Environment] that [WorkDir] reads. *)
Record t : Type := {
  workdir : string;
  binary_name : string;
  binary_hash : string;
  my_shard_index : N
}.

End Environment.

(** The holders own the values when the object is built from them; the
    other four members are the views every path function reads. *)
Record WorkDir : Type := {
  workdir_holder_ : string;
  binary_name_holder_ : string;
  binary_hash_holder_ : string;
  my_shard_index_holder_ : N;
  workdir_ : string;
  binary_name_ : string;
  binary_hash_ : string;
  my_shard_index_ : N
}.

(** [WorkDir::WorkDir(std::string, std::string, std::string, size_t)]. *)
Definition WorkDir_of_values
  (workdir binary_name binary_hash : string) (my_shard_index : N) : WorkDir :=
  {| workdir_holder_ := workdir;
     binary_name_holder_ := binary_name;
     binary_hash_holder_ := binary_hash;
     my_shard_index_holder_ := my_shard_index;
     workdir_ := workdir;
     binary_name_ := binary_name;
     binary_hash_ := binary_hash;
     my_shard_index_ := my_shard_index |}.

(** [WorkDir::WorkDir(const Environment&)]: the holders are not set (they
    are empty strings and 0 here) and the views refer to the environment. *)
Definition WorkDir_of_env (env : Environment.t) : WorkDir :=
  {| workdir_holder_ := EmptyString;
     binary_name_holder_ := EmptyString;
     binary_hash_holder_ := EmptyString;
     my_shard_index_holder_ := 0;
     workdir_ := Environment.workdir env;
     binary_name_ := Environment.binary_name env;
     binary_hash_ := Environment.binary_hash env;
     my_shard_index_ := Environment.my_shard_index env |}.

(** [std::string::substr(1)] of a string that is not empty. *)
Definition substr1 (s : string) : string :=
  match s with
  | EmptyString => EmptyString
  | String _ r => r
  end.

Definition FromCorpusShardPath
  (corpus_shard_path binary_name binary_hash : string) : Checked WorkDir :=
  let path := corpus_shard_path in
  let dir := fs.parent_path path in
  let stem := fs.stem path in
  CHECK (String.eqb stem kCorpusShardStem) "stem == kCorpusShardStem"
    (VV "corpus_shard_path" corpus_shard_path) ;;
  let dot_ext := fs.extension path in
  CHECK (match dot_ext with
         | EmptyString => false
         | String c _ => is_char "." c
         end) "!dot_ext.empty() && dot_ext[0] == '.'"
    (VV "corpus_shard_path" corpus_shard_path) ;;
  let ext := substr1 dot_ext in
  CHECK (Nat.eqb (String.length ext) kDigitsInShardIndex)
    "ext.size() == kDigitsInShardIndex"
    (VV "corpus_shard_path" corpus_shard_path) ;;
  match absl.SimpleAtoi ext with
  | None =>
      CheckFailure "absl::SimpleAtoi(ext, &shard_index)"
        (VV "corpus_shard_path" corpus_shard_path)
  | Some shard_index =>
      Ok (WorkDir_of_values dir binary_name binary_hash shard_index)
  end.

Definition CoverageDirPath (self : WorkDir) : string :=
  fs.append (workdir_ self)
    (absl.StrCat [binary_name_ self; "-"; binary_hash_ self]).

Definition CrashReproducerDirPath (self : WorkDir) : string :=
  fs.append (workdir_ self) "crashes".

Definition BinaryInfoDirPath (self : WorkDir) : string :=
  fs.append (CoverageDirPath self) "binary-info".

Definition CorpusFiles (self : WorkDir) : ShardedFileInfo.t :=
  ShardedFileInfo.make (workdir_ self)
    (absl.StrCat [kCorpusShardStem; "."]) (my_shard_index_ self).

Definition DistilledCorpusFiles (self : WorkDir) : ShardedFileInfo.t :=
  ShardedFileInfo.make (workdir_ self)
    (absl.StrCat ["distilled-"; binary_name_ self; "."])
    (my_shard_index_ self).

Definition FeaturesFiles (self : WorkDir) : ShardedFileInfo.t :=
  ShardedFileInfo.make (CoverageDirPath self) "features."
    (my_shard_index_ self).

Definition DistilledFeaturesFiles (self : WorkDir) : ShardedFileInfo.t :=
  ShardedFileInfo.make (CoverageDirPath self)
    (absl.StrCat ["distilled-features-"; binary_name_ self; "."])
    (my_shard_index_ self).

Definition CoverageReportPath (self : WorkDir) (annotation : string)
  : Checked string :=
  normalized <- NormalizeAnnotation annotation ;;
  Ok (fs.append (workdir_ self)
        (absl.StrFormat "coverage-report-%s.%0*d%s.txt"
           [absl.ArgString (binary_name_ self);
            absl.ArgWidth kDigitsInShardIndex;
            absl.ArgSize (my_shard_index_ self);
            absl.ArgString normalized])).

Definition CorpusStatsPath (self : WorkDir) (annotation : string)
  : Checked string :=
  normalized <- NormalizeAnnotation annotation ;;
  Ok (fs.append (workdir_ self)
        (absl.StrFormat "corpus-stats-%s.%0*d%s.json"
           [absl.ArgString (binary_name_ self);
            absl.ArgWidth kDigitsInShardIndex;
            absl.ArgSize (my_shard_index_ self);
            absl.ArgString normalized])).

Definition FuzzingStatsPath (self : WorkDir) (annotation : string)
  : Checked string :=
  normalized <- NormalizeAnnotation annotation ;;
  Ok (fs.append (workdir_ self)
        (absl.StrFormat "fuzzing-stats-%s.%0*d%s.csv"
           [absl.ArgString (binary_name_ self);
            absl.ArgWidth kDigitsInShardIndex;
            absl.ArgSize (my_shard_index_ self);
            absl.ArgString normalized])).

Definition SourceBasedCoverageRawProfilePath (self : WorkDir) : string :=
  fs.append (CoverageDirPath self)
    (absl.StrFormat "clang_coverage.%0*d.%s.profraw"
       [absl.ArgWidth kDigitsInShardIndex;
        absl.ArgSize (my_shard_index_ self);
        absl.ArgString "%m"]).

Definition SourceBasedCoverageIndexedProfilePath (self : WorkDir) : string :=
  fs.append (CoverageDirPath self)
    (absl.StrFormat "clang_coverage.profdata" []).

Definition SourceBasedCoverageReportPath (self : WorkDir) (annotation : string)
  : Checked string :=
  normalized <- NormalizeAnnotation annotation ;;
  Ok (fs.append (workdir_ self)
        (absl.StrFormat "source-coverage-report-%s.%0*d%s"
           [absl.ArgString (binary_name_ self);
            absl.ArgWidth kDigitsInShardIndex;
            absl.ArgSize (my_shard_index_ self);
            absl.ArgString normalized])).

Definition RUsageReportPath (self : WorkDir) (annotation : string)
  : Checked string :=
  normalized <- NormalizeAnnotation annotation ;;
  Ok (fs.append (workdir_ self)
        (absl.StrFormat "rusage-report-%s.%0*d%s.txt"
           [absl.ArgString (binary_name_ self);
            absl.ArgWidth kDigitsInShardIndex;
            absl.ArgSize (my_shard_index_ self);
            absl.ArgString normalized])).

(** [for (const auto &entry : dir_iter)] of [EnumerateRawCoverageProfiles]
    from where the iterator stands: the status query of an entry and the
    step to the next entry throw on an error; the entries of a directory
    are named by the directory path followed by the entry's name. *)
Fixpoint EnumerateRawCoverageProfiles_loop
  (dir_path : string) (dir_iter : directory_stream)
  (raw_profiles : list string) : Outcome (list string) :=
  match dir_iter with
  | end_of_directory => Returned raw_profiles
  | read_error what => Thrown what
  | read_entry name status next =>
      let entry := {| path := fs.append dir_path name;
                      is_regular_file := status |} in
      match is_regular_file entry with
      | Thrown what => Thrown what
      | Returned regular =>
          EnumerateRawCoverageProfiles_loop dir_path next
            (if regular && String.eqb (fs.extension (path entry)) ".profraw"
             then (raw_profiles ++ [path entry])%list
             else raw_profiles)
      end
  end.

Definition EnumerateRawCoverageProfiles (disk : FileSystem) (self : WorkDir)
  : Logged (Outcome (list string)) :=
  let dir_path := CoverageDirPath self in
  match directory_iterator disk dir_path with
  | inl dir_error =>
      ([absl.StrCat ["Failed to access coverage dir '"; dir_path; "': ";
                     dir_error]], Returned [])
  | inr dir_iter =>
      ([], EnumerateRawCoverageProfiles_loop dir_path dir_iter [])
  end.

(** ** Matching a glob pattern *)

(** Modelled from the spec: the matcher that expands the pattern of
    [AllShardsGlob] is not part of the sources. It is the matching of path
    names described in glob(7). A question mark stands for one character and
    an asterisk for any run of characters; an opening bracket up to the next
    closing bracket of the same component stands for one character of the
    set between them, given by characters and by ranges of two characters
    around a hyphen, or for one character outside of the set when the set
    starts with an exclamation mark or a caret; a closing bracket right
    after the opening is a member of the set, and an opening bracket that is
    never closed stands for itself. None of the three matches a separator,
    and none matches a period at the start of a component. A backslash
    outside of brackets makes the next character stand for itself; a pattern
    that ends in such a backslash matches nothing. Every other character
    stands for itself. Named character classes inside brackets are not
    covered. *)
Inductive glob_token : Type :=
| Literal (c : ascii)
| AnyChar
| AnyRun
| Bracket (complement : bool) (members : list (ascii * ascii)).

(** The position in [s] of the bracket that closes a set; the first
    character of a set is a member even when it is a closing bracket. *)
Fixpoint closing (first : bool) (s : string) : option nat :=
  match s with
  | EmptyString => None
  | String c s' =>
      if is_char "]" c && negb first then Some 0
      else if is_char fs.sep c then None
      else option_map S (closing false s')
  end.

(** The members of a set: single characters and ranges [lo-hi]. *)
Fixpoint ranges (body : string) : list (ascii * ascii) :=
  match body with
  | EmptyString => []
  | String lo body1 =>
      match body1 with
      | String m (String hi body') =>
          if is_char "-" m then (lo, hi) :: ranges body'
          else (lo, lo) :: ranges body1
      | _ => (lo, lo) :: ranges body1
      end
  end.

(** The set that starts after an opening bracket, with the number of
    characters it takes after that bracket. *)
Definition bracket (rest : string) : option (glob_token * nat) :=
  let complement :=
    match rest with
    | String c _ => is_char "!" c || is_char "^" c
    | EmptyString => false
    end in
  let body :=
    match rest with
    | String _ rest' => if complement then rest' else rest
    | EmptyString => rest
    end in
  match closing true body with
  | Some n =>
      Some (Bracket complement (ranges (substring 0 n body)),
            (if complement then 1 else 0) + n + 1)
  | None => None
  end.

(** The pattern cut into tokens; [skip] characters belong to the token
    before them. A backslash at the end of the pattern becomes the empty
    set, which no character belongs to. *)
Fixpoint tokens_from (skip : nat) (pattern : string) : list glob_token :=
  match pattern with
  | EmptyString => []
  | String c rest =>
      match skip with
      | S skip' => tokens_from skip' rest
      | O =>
          if is_char "*" c then AnyRun :: tokens_from 0 rest
          else if is_char "?" c then AnyChar :: tokens_from 0 rest
          else if is_char "\" c then
            match rest with
            | EmptyString => [Bracket false []]
            | String escaped _ => Literal escaped :: tokens_from 1 rest
            end
          else if is_char "[" c then
            match bracket rest with
            | Some (set, taken) => set :: tokens_from taken rest
            | None => Literal c :: tokens_from 0 rest
            end
          else Literal c :: tokens_from 0 rest
      end
  end.

Definition in_ranges (c : ascii) (members : list (ascii * ascii)) : bool :=
  existsb (fun range =>
             (nat_of_ascii (fst range) <=? nat_of_ascii c)%nat
             && (nat_of_ascii c <=? nat_of_ascii (snd range))%nat)
    members.

(** A period at the start of a component: [leading] tells that [s] starts a
    component. *)
Definition period_at_start (leading : bool) (s : string) : bool :=
  leading
  && match s with
     | String c _ => is_char fs.dot c
     | EmptyString => false
     end.

(** One character against a token that takes one character. *)
Definition one_char (token : glob_token) (leading : bool) (c : ascii) : bool :=
  match token with
  | Literal p => is_char p c
  | AnyChar =>
      negb (is_char fs.sep c) && negb (leading && is_char fs.dot c)
  | Bracket complement members =>
      negb (is_char fs.sep c) && negb (leading && is_char fs.dot c)
      && xorb complement (in_ranges c members)
  | AnyRun => false
  end.

(** An asterisk: the rest of the pattern matches here or after one more
    character that is not a separator. *)
Fixpoint any_run (rest : bool -> string -> bool) (leading : bool) (s : string)
  : bool :=
  rest leading s
  || match s with
     | EmptyString => false
     | String c s' => negb (is_char fs.sep c) && any_run rest false s'
     end.

Fixpoint match_tokens (pattern : list glob_token) (leading : bool) (s : string)
  : bool :=
  match pattern with
  | [] =>
      match s with
      | EmptyString => true
      | _ => false
      end
  | AnyRun :: pattern' =>
      negb (period_at_start leading s)
      && any_run (match_tokens pattern') leading s
  | token :: pattern' =>
      match s with
      | EmptyString => false
      | String c s' =>
          one_char token leading c
          && match_tokens pattern' (is_char fs.sep c) s'
      end
  end.

Definition glob_match (pattern s : string) : bool :=
  match_tokens (tokens_from 0 pattern) true s.

(** ** llvm_fuzzer_wrapper.cc

    A [std::vector<uint8_t>] is a [list byte] and its size the length of the
    list; the bytes of a [std::string] are [list_byte_of_string]. *)

Definition kByteArrayMaxLen : nat := 4096.

(** [std::vector<uint8_t>::resize(n)]: the vector is cut to [n] elements or
    filled up to [n] elements with zeros. *)
Definition resize (n : nat) (v : list byte) : list byte :=
  (firstn n v ++ repeat x00 (n - List.length v))%list.

(** [fuzztest::internal::FilePathAndData]. *)
Module FilePathAndData.

Record t : Type := {
  path : string;
  data : string
}.

End FilePathAndData.

(** *** [InplaceVector<T>] *)

Module InplaceVector.

Section Elements.

Variable T : Type.

(** The memory [data_] points to, read by offset from [data_], and the
    [size_t] member [size_]. A [T*] into that memory is its offset. *)
Record t : Type := {
  data_ : nat -> T;
  size_ : N
}.

(** [*at = val]. *)
Definition store (memory : nat -> T) (at_ : nat) (val : T) : nat -> T :=
  fun offset => if Nat.eqb offset at_ then val else memory offset.

Definition size (self : t) : N := size_ self.

Definition begin_ (self : t) : nat := 0.

Definition end_ (self : t) : nat := N.to_nat (size_ self).

(** [for (T* itr = data_ + size_; itr > index; --itr) *itr = *(itr - 1);]
    with [itr] at [index + n]: the loop runs while [n] is not 0. *)
Fixpoint insert_loop (memory : nat -> T) (index n : nat) : nat -> T :=
  match n with
  | O => memory
  | S n' =>
      insert_loop (store memory (index + S n') (memory (index + n'))) index n'
  end.

Definition insert (self : t) (index : nat) (val : T) : t :=
  let memory :=
    insert_loop (data_ self) index (N.to_nat (size_ self) - index) in
  {| data_ := store memory index val;
     size_ := ((size_ self + 1) mod 2 ^ 64)%N |}.

(** [for (T* itr = index; itr < data_ + size_ - 1; ++itr) *itr = *(itr + 1);]
    with [n] iterations left. *)
Fixpoint erase_loop (memory : nat -> T) (itr n : nat) : nat -> T :=
  match n with
  | O => memory
  | S n' => erase_loop (store memory itr (memory (S itr))) (S itr) n'
  end.

(** [erase(T* index)]. *)
Definition erase (self : t) (index : nat) : t :=
  {| data_ :=
       erase_loop (data_ self) index (N.to_nat (size_ self) - 1 - index);
     size_ := ((size_ self + (2 ^ 64 - 1)) mod 2 ^ 64)%N |}.

(** [for (T *itr = begin, *jtr = end; jtr < data_ + size_; ++itr, ++jtr)
    *itr = *jtr;] with [n] iterations left. *)
Fixpoint erase_range_loop (memory : nat -> T) (itr jtr n : nat) : nat -> T :=
  match n with
  | O => memory
  | S n' => erase_range_loop (store memory itr (memory jtr)) (S itr) (S jtr) n'
  end.

(** [erase(T* begin, T* end)]; [end - begin] is a [ptrdiff_t]. *)
Definition erase_range (self : t) (begin end_ : nat) : t :=
  {| data_ :=
       erase_range_loop (data_ self) begin end_
         (N.to_nat (size_ self) - end_);
     size_ :=
       Z.to_N ((Z.of_N (size_ self) - (Z.of_nat end_ - Z.of_nat begin))
               mod 2 ^ 64) |}.

(** The elements from [begin()] to [end()]. *)
Definition elements (self : t) : list T :=
  map (data_ self) (seq 0 (N.to_nat (size_ self))).

End Elements.

End InplaceVector.

Arguments InplaceVector.data_ {T} _ _.
Arguments InplaceVector.size_ {T} _.
Arguments InplaceVector.store {T} memory at_ val _.
Arguments InplaceVector.insert_loop {T} memory index n _.
Arguments InplaceVector.insert {T} self index val.
Arguments InplaceVector.erase_loop {T} memory itr n _.
Arguments InplaceVector.erase {T} self index.
Arguments InplaceVector.erase_range_loop {T} memory itr jtr n _.
Arguments InplaceVector.erase_range {T} self begin end_.
Arguments InplaceVector.elements {T} self.

(** *** Seeds, dictionary and mutation *)

Section Wrapper.

(** [fuzztest::internal::ReadFileOrDirectory] of fuzztest/internal/io.h. *)
Variable ReadFileOrDirectory : string -> list FilePathAndData.t.

(** [fuzztest::ParseDictionary]: the entries, or the status that is not
    [ok()]. *)
Variable ParseDictionary : string -> string + list string.

(** The state of the random bit generator behind an [absl::BitGenRef] and
    one call of it. *)
Variable BitGen : Type.
Variable prng_call : BitGen -> N * BitGen.

(** The weak symbol [LLVMFuzzerCustomMutator], when a definition is linked
    in: from the buffer at [data], [size], [max_size] and [seed] to the
    buffer it leaves and the size it returns. *)
Variable LLVMFuzzerCustomMutator :
  option (list byte -> nat -> nat -> N -> list byte * nat).

(** [SequenceContainerOfImpl::Mutate]. *)
Variable Base_Mutate : list byte -> BitGen -> bool -> list byte * BitGen.

(** [flag] is the value of [--llvm_fuzzer_wrapper_corpus_dir]. *)
Definition ReadByteArraysFromDirectory (flag : string) : list (list byte) :=
  if String.eqb flag EmptyString then []
  else
    let files := ReadFileOrDirectory flag in
    fold_left
      (fun (out : list (list byte)) file =>
         (out
          ++ [firstn
                (Nat.min (String.length (FilePathAndData.data file))
                   kByteArrayMaxLen)
                (list_byte_of_string (FilePathAndData.data file))])%list)
      files [].

(** [flag] is the value of [--llvm_fuzzer_wrapper_dict_file]. *)
Definition ReadByteArrayDictionaryFromFile (flag : string)
  : Checked (list (list byte)) :=
  if String.eqb flag EmptyString then Ok []
  else
    let files := ReadFileOrDirectory flag in
    fold_left
      (fun (so_far : Checked (list (list byte))) file =>
         out <- so_far ;;
         match ParseDictionary (FilePathAndData.data file) with
         | inl status =>
             CheckFailure "parsed_entries.status().ok()"
               (absl.StrCat ["Could not parse dictionary file ";
                             FilePathAndData.path file; ": "; status])
         | inr parsed_entries =>
             Ok (fold_left
                   (fun (out : list (list byte)) parsed_entry =>
                      (out ++ [list_byte_of_string parsed_entry])%list)
                   parsed_entries out)
         end)
      files (Ok []).

(** [ArbitraryByteVector::Mutate]: the value and the generator after the
    call. The seed is the generator's result as an [unsigned int]. *)
Definition Mutate (val : list byte) (prng : BitGen) (only_shrink : bool)
  : list byte * BitGen :=
  match LLVMFuzzerCustomMutator with
  | Some mutator =>
      let size := List.length val in
      let max_size := if only_shrink then size else kByteArrayMaxLen in
      let val := resize max_size val in
      let (drawn, prng) := prng_call prng in
      let (val, new_size) := mutator val size max_size (drawn mod 2 ^ 32)%N in
      (resize new_size val, prng)
  | None => Base_Mutate val prng only_shrink
  end.

End Wrapper.

(** ** Notions used to state the properties *)

(** The number a string of decimal digits denotes. *)
Fixpoint digits_value (s : string) : N :=
  match s with
  | EmptyString => 0
  | String c r =>
      (N_of_ascii c - 48) * 10 ^ N.of_nat (String.length r) + digits_value r
  end.

(** The left operand of [operator/] together with the separator the
    operator adds in front of a relative right operand. *)
Definition with_separator (p : string) : string :=
  if fs.has_filename p then p ++ String fs.sep EmptyString else p.

(** What [StrFormat] writes for the conversion [%0*d] of a shard index. *)
Definition padded_index (n : N) : string :=
  absl.zero_pad kDigitsInShardIndex (absl.decimal n).

(** The texts [absl::SimpleAtoi] reads as a number that is not negative:
    decimal digits, at least one, after an optional ["+"], the whole between
    optional runs of whitespace. *)
Definition decimal_number (s : string) : Prop :=
  exists ws1 sign ds ws2 : string,
    s = ws1 ++ sign ++ ds ++ ws2
    /\ all_chars absl.ascii_isspace ws1 = true
    /\ all_chars absl.ascii_isspace ws2 = true
    /\ (sign = "" \/ sign = "+")
    /\ ds <> ""
    /\ all_chars is_digit ds = true.

(** The rule of the report paths for a report function, the text its file
    names start with and the extension they end with: without annotation
    the name is that text, the binary name, a dot, the padded shard index
    and the extension; an annotation that does not start with a dot is
    inserted, after a dot, in front of the extension; an annotation that
    starts with a dot stops the call at a failed check. *)
Definition report_path_rule
  (report : WorkDir -> string -> Checked string) (kind extension : string)
  : Prop :=
  forall (self : WorkDir) (annotation : string),
    let name inserted :=
      fs.append (workdir_ self)
        (kind ++ binary_name_ self ++ "."
         ++ padded_index (my_shard_index_ self) ++ inserted ++ extension) in
    match annotation with
    | EmptyString => report self annotation = Ok (name "")
    | String front _ =>
        if is_char "." front
        then exists condition message,
            report self annotation = CheckFailure condition message
        else report self annotation = Ok (name ("." ++ annotation))
    end.

(** The four groups of sharded files of a work directory. *)
Definition sharded_file_groups (self : WorkDir) : list ShardedFileInfo.t :=
  [CorpusFiles self; DistilledCorpusFiles self; FeaturesFiles self;
   DistilledFeaturesFiles self].

(** Two work directories that show the same values to the path functions. *)
Definition same_views (a b : WorkDir) : Prop :=
  workdir_ a = workdir_ b
  /\ binary_name_ a = binary_name_ b
  /\ binary_hash_ a = binary_hash_ b
  /\ my_shard_index_ a = my_shard_index_ b.

(** The entries a directory read gives before it ends or fails, and the
    first error of a read or of a status query, if there is one. *)
Fixpoint listed (dir_iter : directory_stream) : list (string * Outcome bool) :=
  match dir_iter with
  | end_of_directory => []
  | read_error _ => []
  | read_entry name status next => (name, status) :: listed next
  end.

Fixpoint first_failure (dir_iter : directory_stream) : option string :=
  match dir_iter with
  | end_of_directory => None
  | read_error what => Some what
  | read_entry _ (Thrown what) _ => Some what
  | read_entry _ (Returned _) next => first_failure next
  end.

(** An entry that [EnumerateRawCoverageProfiles] keeps: a regular file, named
    in the directory [dir_path], whose extension is [.profraw]. *)
Definition is_raw_profile (dir_path : string) (e : string * Outcome bool)
  : bool :=
  match snd e with
  | Returned regular =>
      regular
      && String.eqb (fs.extension (fs.append dir_path (fst e))) ".profraw"
  | Thrown _ => false
  end.

(** The five report paths, each with the text its file names start with
    and the extension they end with. *)
Definition report_paths
  : list ((WorkDir -> string -> Checked string) * (string * string)) :=
  [(CoverageReportPath, ("coverage-report-", ".txt"));
   (CorpusStatsPath, ("corpus-stats-", ".json"));
   (FuzzingStatsPath, ("fuzzing-stats-", ".csv"));
   (RUsageReportPath, ("rusage-report-", ".txt"));
   (SourceBasedCoverageReportPath, ("source-coverage-report-", ""))].

(** A text that does not go on with a digit. *)
Definition no_digit_head (s : string) : bool :=
  match s with
  | EmptyString => true
  | String c _ => negb (is_digit c)
  end.

(** The dictionary entries of a file, as byte arrays, and whether the file
    is one [ParseDictionary] does not accept. *)
Definition parsed_bytes
  (ParseDictionary : string -> string + list string)
  (file : FilePathAndData.t) : list (list byte) :=
  match ParseDictionary (FilePathAndData.data file) with
  | inl _ => []
  | inr parsed_entries => map list_byte_of_string parsed_entries
  end.

Definition unparsable
  (ParseDictionary : string -> string + list string)
  (file : FilePathAndData.t) : bool :=
  match ParseDictionary (FilePathAndData.data file) with
  | inl _ => true
  | inr _ => false
  end.

(** The characters that do not stand for themselves in a glob pattern. *)
Definition glob_special (c : ascii) : bool :=
  is_char "*" c || is_char "?" c || is_char "[" c || is_char "\" c.

Definition wildcard_free (s : string) : bool :=
  all_chars (fun c => negb (glob_special c)) s.

(** The token of a character that is neither an opening bracket nor a
    backslash. *)
Definition plain_token (c : ascii) : glob_token :=
  if is_char "*" c then AnyRun
  else if is_char "?" c then AnyChar
  else Literal c.

(** Whether a text that follows [p] starts a component, [leading] telling
    whether [p] does. *)
Fixpoint component_start (leading : bool) (p : string) : bool :=
  match p with
  | EmptyString => leading
  | String c p' => component_start (is_char fs.sep c) p'
  end.

(** * Properties *)

(** ** Strings *)

Section Strings.

Variable x : ascii.
Variable p : ascii -> bool.

Lemma append_nil_r (s : string) : s ++ "" = s.
Proof. induction s as [|c s IH]; simpl; [reflexivity | now rewrite IH]. Qed.

Lemma append_assoc (a b c : string) : (a ++ b) ++ c = a ++ (b ++ c).
Proof. induction a as [|h a IH]; simpl; [reflexivity | now rewrite IH]. Qed.

Lemma length_append (a b : string) :
  String.length (a ++ b) = String.length a + String.length b.
Proof. induction a as [|h a IH]; simpl; [reflexivity | now rewrite IH]. Qed.

Lemma append_inv_head (a b c : string) : a ++ b = a ++ c -> b = c.
Proof.
  induction a as [|h a IH]; simpl; intros H; [exact H|].
  injection H as H. now apply IH.
Qed.

Lemma snoc_view (s : string) :
  s = "" \/ exists s' c, s = s' ++ String c "".
Proof.
  induction s as [|h s IH]; [now left | right].
  destruct IH as [-> | (s' & c & ->)].
  - now exists "", h.
  - now exists (String h s'), c.
Qed.

Lemma snoc_not_nil (s : string) (c : ascii) (t : string) :
  s ++ String c t <> "".
Proof. destruct s; discriminate. Qed.

Lemma is_char_refl : is_char x x = true.
Proof. unfold is_char. apply Ascii.eqb_refl. Qed.

Lemma contains_append (a b : string) :
  contains x (a ++ b) = contains x a || contains x b.
Proof.
  induction a as [|h a IH]; simpl; [reflexivity|].
  now rewrite IH, orb_assoc.
Qed.

Lemma count_char_append (a b : string) :
  count_char x (a ++ b) = count_char x a + count_char x b.
Proof.
  induction a as [|h a IH]; simpl; [reflexivity|]. rewrite IH. lia.
Qed.

Lemma count_char_free (s : string) :
  contains x s = false -> count_char x s = 0.
Proof.
  induction s as [|h s IH]; simpl; [reflexivity|].
  intros H. apply orb_false_elim in H as [-> H]. now rewrite IH.
Qed.

Lemma all_chars_append (a b : string) :
  all_chars p (a ++ b) = all_chars p a && all_chars p b.
Proof.
  induction a as [|h a IH]; simpl; [reflexivity|].
  now rewrite IH, andb_assoc.
Qed.

Lemma all_chars_repeat (c : ascii) (n : nat) :
  p c = true -> all_chars p (repeat_char c n) = true.
Proof. intros H. induction n as [|n IH]; simpl; [reflexivity | now rewrite H]. Qed.

Lemma length_repeat (c : ascii) (n : nat) :
  String.length (repeat_char c n) = n.
Proof. induction n as [|n IH]; simpl; [reflexivity | now rewrite IH]. Qed.

(** *** Splitting at the last occurrence *)

Lemma rsplit_eq (s : string) : s = fst (rsplit x s) ++ snd (rsplit x s).
Proof.
  induction s as [|c s IH]; simpl; [reflexivity|].
  destruct (rsplit x s) as [[|d0 d] f]; simpl in *.
  - destruct (is_char x c); simpl; now rewrite <- IH.
  - now rewrite <- IH.
Qed.

Lemma rsplit_free (s : string) :
  contains x s = false -> rsplit x s = ("", s).
Proof.
  induction s as [|c s IH]; simpl; [reflexivity|].
  intros H. apply orb_false_elim in H as [Hc H].
  now rewrite (IH H), Hc.
Qed.

Lemma rsplit_snd_free (s : string) : contains x (snd (rsplit x s)) = false.
Proof.
  induction s as [|c s IH]; simpl; [reflexivity|].
  destruct (rsplit x s) as [[|d0 d] f]; simpl in *; [|exact IH].
  destruct (is_char x c) eqn:E; simpl; [exact IH | now rewrite E].
Qed.

Lemma rsplit_append_free (s g : string) :
  contains x g = false ->
  rsplit x (s ++ g) = (fst (rsplit x s), snd (rsplit x s) ++ g).
Proof.
  intros Hg. induction s as [|c s IH]; simpl.
  - now apply rsplit_free.
  - rewrite IH. destruct (rsplit x s) as [[|d0 d] f]; simpl;
      [destruct (is_char x c)|]; reflexivity.
Qed.

Lemma rsplit_at_last (s g : string) :
  contains x g = false ->
  rsplit x (s ++ String x g) = (s ++ String x "", g).
Proof.
  intros Hg. induction s as [|c s IH]; simpl.
  - now rewrite (rsplit_free g Hg), is_char_refl.
  - rewrite IH. now destruct s.
Qed.

(** *** Stripping a suffix *)

Lemma rstrip_snoc (s : string) (c : ascii) :
  rstrip p (s ++ String c "") =
  if p c then rstrip p s else s ++ String c "".
Proof.
  induction s as [|h s IH]; simpl.
  - now destruct (p c).
  - rewrite IH. destruct (p c); [reflexivity|]. now destruct s.
Qed.

Lemma rstrip_kept_char (c : ascii) (s : string) :
  p c = false -> rstrip p (String c s) <> "".
Proof. intros H. simpl. destruct (rstrip p s); [rewrite H|]; discriminate. Qed.

Lemma rstrip_append_keep (a b : string) :
  rstrip p b <> "" -> rstrip p (a ++ b) = a ++ rstrip p b.
Proof.
  intros H. induction a as [|h a IH]; simpl; [reflexivity|].
  rewrite IH. destruct a; simpl; [now destruct (rstrip p b)|reflexivity].
Qed.

Lemma rstrip_length (s : string) :
  String.length (rstrip p s) <= String.length s.
Proof.
  induction s as [|c s IH]; simpl; [lia|].
  destruct (rstrip p s); [destruct (p c)|]; simpl in *; lia.
Qed.

End Strings.

(** ** Pathnames *)

Section Paths.

Lemma remove_last_snoc (s : string) (c : ascii) :
  remove_last (s ++ String c "") = s.
Proof.
  induction s as [|h s IH]; simpl; [reflexivity|].
  rewrite IH. now destruct s.
Qed.

Lemma has_filename_snoc (s : string) (c : ascii) :
  fs.has_filename (s ++ String c "") = negb (is_char fs.sep c).
Proof.
  unfold fs.has_filename, fs.filename.
  destruct (is_char fs.sep c) eqn:E.
  - apply Ascii.eqb_eq in E. subst c.
    now rewrite rsplit_at_last.
  - rewrite rsplit_append_free by (simpl; now rewrite E). simpl.
    now destruct (snd (rsplit fs.sep s)).
Qed.

Lemma has_filename_rstrip (p : string) :
  fs.has_filename p = true -> rstrip (is_char fs.sep) p = p.
Proof.
  destruct (snoc_view p) as [-> | (s & c & ->)]; [discriminate|].
  rewrite has_filename_snoc, rstrip_snoc.
  now destruct (is_char fs.sep c).
Qed.

Lemma relative_of_free (f : string) :
  contains fs.sep f = false -> fs.is_absolute f = false.
Proof.
  destruct f as [|c f]; simpl; [reflexivity|].
  intros H. now apply orb_false_elim in H as [-> _].
Qed.

(** A relative right operand is written after the left one and its
    separator. *)
Lemma append_relative (p q : string) :
  fs.is_absolute q = false -> fs.append p q = with_separator p ++ q.
Proof.
  intros H. unfold fs.append, with_separator. rewrite H.
  destruct (fs.has_filename p); [|reflexivity].
  now rewrite append_assoc.
Qed.

Lemma rsplit_with_separator (p f : string) :
  contains fs.sep f = false ->
  rsplit fs.sep (with_separator p ++ f) = (with_separator p, f).
Proof.
  intros Hf. unfold with_separator.
  destruct (fs.has_filename p) eqn:E.
  - rewrite append_assoc. simpl. now rewrite rsplit_at_last.
  - rewrite rsplit_append_free by exact Hf.
    unfold fs.has_filename, fs.filename in E.
    apply negb_false_iff, String.eqb_eq in E.
    pose proof (rsplit_eq fs.sep p) as Hp.
    rewrite E, append_nil_r in Hp. now rewrite E, <- Hp.
Qed.

Lemma has_relative_path_append (a : string) (c : ascii) (f : string) :
  is_char fs.sep c = false -> fs.has_relative_path (a ++ String c f) = true.
Proof.
  intros Hc. unfold fs.has_relative_path.
  rewrite rstrip_append_keep by now apply rstrip_kept_char.
  apply negb_true_iff, String.eqb_neq. intros H.
  destruct a; simpl in H; [|discriminate].
  now apply (rstrip_kept_char (is_char fs.sep) c f Hc).
Qed.

(** The parent of a name placed in [p] is [p] with its trailing separators
    removed, and ["/"] when nothing else is left of a [p] that is not
    empty. *)
Lemma parent_path_with_separator (p f : string) :
  contains fs.sep f = false -> f <> "" ->
  fs.parent_path (with_separator p ++ f) =
  match rstrip (is_char fs.sep) p with
  | EmptyString =>
      match p with
      | EmptyString => EmptyString
      | String c _ => String c EmptyString
      end
  | d => d
  end.
Proof.
  intros Hf Hne. destruct f as [|c f]; [contradiction|].
  assert (Hc : is_char fs.sep c = false)
    by (simpl in Hf; now apply orb_false_elim in Hf as [-> _]).
  unfold fs.parent_path.
  rewrite has_relative_path_append by exact Hc.
  rewrite rsplit_with_separator by exact Hf. simpl.
  unfold with_separator. destruct (fs.has_filename p) eqn:E.
  - rewrite rstrip_snoc. change (is_char fs.sep fs.sep) with true. simpl.
    rewrite (has_filename_rstrip p E).
    destruct p; [discriminate | reflexivity].
  - reflexivity.
Qed.

Lemma parent_path_append (p f : string) :
  contains fs.sep f = false -> f <> "" ->
  p = "" \/ p = "/" \/ fs.has_filename p = true ->
  fs.parent_path (fs.append p f) = p.
Proof.
  intros Hf Hne Hp.
  rewrite append_relative by now apply relative_of_free.
  rewrite parent_path_with_separator by assumption.
  destruct Hp as [-> | [-> | Hp]]; [reflexivity | reflexivity |].
  rewrite (has_filename_rstrip p Hp). destruct p; [discriminate | reflexivity].
Qed.

(** The parent of a name placed in [p] is [p] itself only for the three
    shapes of [p] that [parent_path_append] names. *)
Lemma parent_path_append_inv (p f : string) :
  contains fs.sep f = false -> f <> "" ->
  fs.parent_path (fs.append p f) = p ->
  p = "" \/ p = "/" \/ fs.has_filename p = true.
Proof.
  intros Hf Hne.
  rewrite append_relative by now apply relative_of_free.
  rewrite parent_path_with_separator by assumption.
  destruct (snoc_view p) as [-> | (q & c & ->)]; [now left|].
  rewrite has_filename_snoc, rstrip_snoc.
  destruct (is_char fs.sep c) eqn:Ec; [|now right; right].
  apply Ascii.eqb_eq in Ec. subst c.
  pose proof (rstrip_length (is_char fs.sep) q) as Hlen.
  destruct (rstrip (is_char fs.sep) q) as [|d0 d]; intros H.
  - destruct q as [|q0 q]; [now right; left|].
    apply (f_equal String.length) in H. simpl in H.
    rewrite length_append in H. simpl in H. lia.
  - apply (f_equal String.length) in H.
    rewrite length_append in H. simpl in H, Hlen. lia.
Qed.

(** A name [a.e] whose part [e] has no dot splits into stem [a] and
    extension [.e]. *)
Lemma split_extension_at_dot (a e : string) :
  a <> "" -> a <> "." -> contains fs.dot e = false ->
  fs.split_extension (a ++ String fs.dot e) = (a, String fs.dot e).
Proof.
  intros Ha Ha' He. unfold fs.split_extension.
  assert (H1 : String.eqb (a ++ String fs.dot e) "." = false).
  { apply String.eqb_neq. destruct a as [|c [|c' a]]; simpl; congruence. }
  assert (H2 : String.eqb (a ++ String fs.dot e) ".." = false).
  { apply String.eqb_neq. destruct a as [|c [|c' [|c'' a]]]; simpl;
      congruence. }
  rewrite H1, H2, rsplit_at_last by exact He. simpl.
  rewrite <- (remove_last_snoc a fs.dot) at 2.
  destruct a as [|c [|c' a]]; [contradiction | reflexivity | reflexivity].
Qed.

End Paths.

(** ** Decimal rendering *)

Section Decimal.

Open Scope N_scope.

(** Arithmetic on a number, its last decimal digit and the rest. *)
Ltac digits_lia n :=
  let q := fresh "q" in
  let r := fresh "r" in
  set (q := n / 10) in *; set (r := n mod 10) in *; clearbody q r; lia.

Lemma digit_char_code (d : N) : d < 10 -> N_of_ascii (absl.digit_char d) = 48 + d.
Proof. intros H. unfold absl.digit_char. apply N_ascii_embedding. lia. Qed.

Lemma digit_char_is_digit (d : N) :
  d < 10 -> is_digit (absl.digit_char d) = true.
Proof.
  intros H. unfold is_digit. rewrite digit_char_code by exact H.
  apply andb_true_intro. split; apply N.leb_le; lia.
Qed.

Lemma is_digit_code (c : ascii) :
  is_digit c = true -> 48 <= N_of_ascii c <= 57.
Proof.
  unfold is_digit. intros H. apply andb_prop in H as [H1 H2].
  apply N.leb_le in H1, H2. lia.
Qed.

Lemma digits_value_append (a b : string) :
  digits_value (a ++ b) =
  digits_value a * 10 ^ N.of_nat (String.length b) + digits_value b.
Proof.
  induction a as [|c a IH]; simpl digits_value; [lia|].
  rewrite IH, length_append, Nat2N.inj_add, N.pow_add_r. lia.
Qed.

Lemma digits_value_lt (s : string) :
  all_chars is_digit s = true ->
  digits_value s < 10 ^ N.of_nat (String.length s).
Proof.
  induction s as [|c s IH]; intros H.
  - simpl. lia.
  - simpl in H. apply andb_prop in H as [Hc H].
    apply is_digit_code in Hc. specialize (IH H).
    cbn [digits_value String.length].
    rewrite Nat2N.inj_succ, N.pow_succ_r'. nia.
Qed.

Lemma decimal_aux_spec (fuel : nat) :
  forall (n : N) (acc : string),
    n < 2 ^ N.of_nat fuel ->
    exists d,
      absl.decimal_aux (S fuel) n acc = (d ++ acc)%string
      /\ all_chars is_digit d = true
      /\ digits_value d = n
      /\ d <> EmptyString
      /\ (String.length d = 1%nat
          \/ 10 ^ N.of_nat (String.length d - 1) <= n).
Proof.
  induction fuel as [|fuel IH]; intros n acc Hn.
  - assert (n = 0) as -> by (simpl in Hn; lia).
    exists "0"%string. repeat split; try reflexivity; [discriminate | now left].
  - change (absl.decimal_aux (S (S fuel)) n acc)
      with (if n / 10 =? 0
            then String (absl.digit_char (n mod 10)) acc
            else absl.decimal_aux (S fuel) (n / 10)
                   (String (absl.digit_char (n mod 10)) acc)).
    assert (Hmod : n mod 10 < 10) by (apply N.mod_lt; lia).
    pose proof (N.Div0.div_mod n 10) as Hdm.
    destruct (N.eqb_spec (n / 10) 0) as [Hz | Hnz].
    + exists (String (absl.digit_char (n mod 10)) "").
      repeat split; try (now left); try discriminate.
      * simpl. now rewrite digit_char_is_digit.
      * cbn [digits_value String.length N.of_nat].
        rewrite digit_char_code, N.pow_0_r by exact Hmod.
        digits_lia n.
    + assert (Hq : n / 10 < 2 ^ N.of_nat fuel).
      { rewrite Nat2N.inj_succ, N.pow_succ_r' in Hn.
        generalize dependent (2 ^ N.of_nat fuel). intros. digits_lia n. }
      destruct (IH (n / 10) (String (absl.digit_char (n mod 10)) acc) Hq)
        as (d & Hd & Hall & Hval & Hne & Hlen).
      exists (d ++ String (absl.digit_char (n mod 10)) "")%string.
      split; [|split; [|split; [|split]]].
      * now rewrite Hd, append_assoc.
      * rewrite all_chars_append, Hall. simpl.
        now rewrite digit_char_is_digit.
      * rewrite digits_value_append, Hval.
        cbn [digits_value String.length N.of_nat].
        rewrite digit_char_code, N.pow_0_r, N.pow_1_r by exact Hmod.
        digits_lia n.
      * apply snoc_not_nil.
      * right. rewrite length_append. simpl String.length.
        replace (String.length d + 1 - 1)%nat with (String.length d) by lia.
        destruct Hlen as [-> | Hlen];
          [change (10 ^ N.of_nat 1) with 10; digits_lia n|].
        destruct (String.length d) as [|k] eqn:Ek;
          [destruct d; [contradiction | discriminate]|].
        rewrite Nat2N.inj_succ, N.pow_succ_r'.
        replace (S k - 1)%nat with k in Hlen by lia.
        generalize dependent (10 ^ N.of_nat k). intros. digits_lia n.
Qed.

(** The rendering of [n]: its digits, its value, and how many there are. *)
Lemma decimal_spec (n : N) :
  all_chars is_digit (absl.decimal n) = true
  /\ digits_value (absl.decimal n) = n
  /\ absl.decimal n <> EmptyString
  /\ (String.length (absl.decimal n) = 1%nat
      \/ 10 ^ N.of_nat (String.length (absl.decimal n) - 1) <= n).
Proof.
  unfold absl.decimal.
  destruct (decimal_aux_spec (N.to_nat (N.size n)) n "") as (d & Hd & H).
  - rewrite N2Nat.id. apply N.size_gt.
  - rewrite Hd, append_nil_r. exact H.
Qed.

End Decimal.

(** ** Zero padding and the shard index in a path *)

Section Padding.

Open Scope N_scope.

Lemma digits_value_zeros (k : nat) : digits_value (repeat_char "0" k) = 0.
Proof. induction k as [|k IH]; simpl; [reflexivity | now rewrite IH]. Qed.

Lemma zero_pad_digits (w : nat) (s : string) :
  all_chars is_digit s = true -> all_chars is_digit (absl.zero_pad w s) = true.
Proof.
  intros H. unfold absl.zero_pad.
  now rewrite all_chars_append, H, all_chars_repeat.
Qed.

Lemma zero_pad_value (w : nat) (s : string) :
  digits_value (absl.zero_pad w s) = digits_value s.
Proof.
  unfold absl.zero_pad. rewrite digits_value_append, digits_value_zeros. lia.
Qed.

Lemma zero_pad_length (w : nat) (s : string) :
  String.length (absl.zero_pad w s) = Nat.max w (String.length s).
Proof.
  unfold absl.zero_pad. rewrite length_append, length_repeat. lia.
Qed.

Lemma zero_pad_not_nil (w : nat) (s : string) :
  s <> EmptyString -> absl.zero_pad w s <> EmptyString.
Proof.
  intros Hs H. apply (f_equal String.length) in H.
  rewrite zero_pad_length in H. destruct s; [contradiction | simpl in H; lia].
Qed.

(** A number below [10 ^ w] has at most [w] digits, when [w] is not 0. *)
Lemma decimal_length_le (w : nat) (n : N) :
  (0 < w)%nat -> n < 10 ^ N.of_nat w ->
  (String.length (absl.decimal n) <= w)%nat.
Proof.
  intros Hw Hn.
  destruct (decimal_spec n) as (_ & _ & _ & [H | H]); [lia|].
  assert (Hlt : 10 ^ N.of_nat (String.length (absl.decimal n) - 1)
                < 10 ^ N.of_nat w) by lia.
  apply N.pow_lt_mono_r_iff in Hlt; lia.
Qed.

(** A number with at most [w] digits is below [10 ^ w]. *)
Lemma decimal_length_bound (w : nat) (n : N) :
  (String.length (absl.decimal n) <= w)%nat -> n < 10 ^ N.of_nat w.
Proof.
  intros Hw. destruct (decimal_spec n) as (Hall & Hval & _).
  pose proof (digits_value_lt _ Hall) as Hlt. rewrite Hval in Hlt.
  apply N.lt_le_trans with (1 := Hlt).
  apply N.pow_le_mono_r; lia.
Qed.

Lemma padded_index_digits (n : N) :
  all_chars is_digit (padded_index n) = true.
Proof. apply zero_pad_digits, decimal_spec. Qed.

Lemma padded_index_value (n : N) : digits_value (padded_index n) = n.
Proof. unfold padded_index. rewrite zero_pad_value. apply decimal_spec. Qed.

Lemma padded_index_not_nil (n : N) : padded_index n <> EmptyString.
Proof. apply zero_pad_not_nil, decimal_spec. Qed.

Lemma padded_index_length (n : N) :
  (String.length (absl.decimal n) <= kDigitsInShardIndex)%nat ->
  String.length (padded_index n) = kDigitsInShardIndex.
Proof. intros H. unfold padded_index. rewrite zero_pad_length. lia. Qed.

Lemma padded_index_inj (i j : N) : padded_index i = padded_index j -> i = j.
Proof.
  intros H. apply (f_equal digits_value) in H.
  now rewrite !padded_index_value in H.
Qed.

Lemma digits_free (x : ascii) (s : string) :
  is_digit x = false -> all_chars is_digit s = true -> contains x s = false.
Proof.
  intros Hx. induction s as [|c s IH]; simpl; [reflexivity|].
  intros H. apply andb_prop in H as [Hc H]. rewrite (IH H), orb_false_r.
  unfold is_char. destruct (Ascii.eqb_spec c x); [congruence | reflexivity].
Qed.

Lemma ShardPath_eq (self : ShardedFileInfo.t) (shard_index : N) :
  ShardedFileInfo.ShardPath self shard_index =
  (ShardedFileInfo.prefix_ self ++ padded_index shard_index)%string.
Proof.
  unfold ShardedFileInfo.ShardPath, padded_index. simpl.
  now rewrite append_nil_r.
Qed.

End Padding.

(** ** Reading a number with [SimpleAtoi] *)

Section Atoi.

Open Scope N_scope.

Variable p : ascii -> bool.

Lemma lstrip_split (s : string) :
  exists ws, s = (ws ++ lstrip p s)%string /\ all_chars p ws = true.
Proof.
  induction s as [|c s (ws & IH & Hws)]; [now exists ""%string|].
  simpl. destruct (p c) eqn:E.
  - exists (String c ws). simpl. now rewrite E, Hws, <- IH.
  - now exists ""%string.
Qed.

Lemma lstrip_append_all (ws s : string) :
  all_chars p ws = true -> lstrip p (ws ++ s) = lstrip p s.
Proof.
  induction ws as [|c ws IH]; simpl; [reflexivity|].
  intros H. apply andb_prop in H as [-> H]. now apply IH.
Qed.

Lemma rstrip_split (s : string) :
  exists ws, s = (rstrip p s ++ ws)%string /\ all_chars p ws = true.
Proof.
  induction s as [|c s (ws & IH & Hws)]; [now exists ""%string|].
  simpl. destruct (rstrip p s) as [|r0 r] eqn:Er.
  - simpl in IH. destruct (p c) eqn:E.
    + exists (String c ws). simpl. rewrite E, Hws. now subst ws.
    + exists ws. simpl. now subst ws.
  - exists ws. simpl in *. now rewrite <- IH.
Qed.

Lemma rstrip_append_all (s ws : string) :
  all_chars p ws = true -> rstrip p (s ++ ws) = rstrip p s.
Proof.
  revert s. induction ws as [|c ws IH]; intros s H.
  - now rewrite append_nil_r.
  - simpl in H. apply andb_prop in H as [Hc H].
    change (s ++ String c ws)%string
      with (s ++ (String c "" ++ ws))%string.
    rewrite <- append_assoc, IH, rstrip_snoc, Hc by exact H. reflexivity.
Qed.

End Atoi.

Section SimpleAtoi.

Open Scope N_scope.

Lemma digit_not_space (c : ascii) :
  is_digit c = true -> absl.ascii_isspace c = false.
Proof.
  intros H. apply is_digit_code in H. unfold absl.ascii_isspace.
  apply orb_false_intro; [apply N.eqb_neq; lia|].
  apply andb_false_intro2, N.leb_gt. lia.
Qed.

Lemma digit_not_sign (c x : ascii) :
  is_digit c = true -> is_digit x = false -> is_char x c = false.
Proof.
  intros Hc Hx. unfold is_char.
  destruct (Ascii.eqb_spec c x); [congruence | reflexivity].
Qed.

Lemma kAsciiToInt_digit (c : ascii) :
  is_digit c = true ->
  absl.kAsciiToInt c = N_of_ascii c - 48 /\ absl.kAsciiToInt c < 10.
Proof.
  intros H. unfold absl.kAsciiToInt. rewrite H.
  apply is_digit_code in H. lia.
Qed.

Lemma kAsciiToInt_lt (c : ascii) :
  absl.kAsciiToInt c < 10 -> is_digit c = true.
Proof.
  unfold absl.kAsciiToInt. destruct (is_digit c); [reflexivity | lia].
Qed.

Lemma pow10_pos (k : nat) : 1 <= 10 ^ N.of_nat k.
Proof.
  assert (10 ^ N.of_nat k <> 0) by (apply N.pow_nonzero; lia). lia.
Qed.

Lemma safe_parse_positive_int_digits (s : string) :
  forall v : N,
    all_chars is_digit s = true ->
    v * 10 ^ N.of_nat (String.length s) + digits_value s <= absl.vmax ->
    absl.safe_parse_positive_int s v =
    Some (v * 10 ^ N.of_nat (String.length s) + digits_value s).
Proof.
  induction s as [|c s IH]; intros v Hall Hmax.
  - simpl. f_equal. lia.
  - simpl in Hall. apply andb_prop in Hall as [Hc Hall].
    destruct (kAsciiToInt_digit c Hc) as [Hk Hlt].
    cbn [absl.safe_parse_positive_int digits_value String.length] in *.
    rewrite <- Hk in *.
    rewrite Nat2N.inj_succ, N.pow_succ_r' in *.
    pose proof (pow10_pos (String.length s)) as Hpos.
    change absl.vmax_over_base with 1844674407370955161.
    unfold absl.vmax in *.
    set (P := 10 ^ N.of_nat (String.length s)) in *.
    set (d := absl.kAsciiToInt c) in *.
    replace (10 <=? d) with false by (symmetry; apply N.leb_gt; lia).
    replace (1844674407370955161 <? v) with false
      by (symmetry; apply N.ltb_ge; nia).
    replace (18446744073709551615 - d <? v * 10) with false
      by (symmetry; apply N.ltb_ge; nia).
    rewrite IH by (try assumption; fold P; nia).
    f_equal. fold P. ring.
Qed.

Lemma safe_parse_positive_int_inv (s : string) :
  forall v n : N,
    absl.safe_parse_positive_int s v = Some n ->
    all_chars is_digit s = true
    /\ n = v * 10 ^ N.of_nat (String.length s) + digits_value s
    /\ (v <= absl.vmax -> n <= absl.vmax).
Proof.
  induction s as [|c s IH]; intros v n H.
  - simpl in *. injection H as <-. repeat split; lia.
  - cbn [absl.safe_parse_positive_int] in H.
    destruct (N.leb_spec 10 (absl.kAsciiToInt c)) as [|Hlt]; [discriminate|].
    destruct (absl.vmax_over_base <? v); [discriminate|].
    destruct (N.ltb_spec (absl.vmax - absl.kAsciiToInt c) (v * 10))
      as [|Hfit]; [discriminate|].
    pose proof (kAsciiToInt_lt c Hlt) as Hc.
    destruct (kAsciiToInt_digit c Hc) as [Hk _].
    destruct (IH _ _ H) as (Hall & Hn & Hmax).
    cbn [all_chars digits_value String.length].
    rewrite Hc, Hall, Nat2N.inj_succ, N.pow_succ_r', <- Hk.
    repeat split.
    + rewrite Hn. ring.
    + intros _. apply Hmax. unfold absl.vmax in *. lia.
Qed.

(** [SimpleAtoi] reads exactly the decimal numbers that fit a [size_t]. *)
Lemma SimpleAtoi_spec (s : string) (n : N) :
  absl.SimpleAtoi s = Some n <->
  exists ws1 sign ds ws2 : string,
    s = (ws1 ++ sign ++ ds ++ ws2)%string
    /\ all_chars absl.ascii_isspace ws1 = true
    /\ all_chars absl.ascii_isspace ws2 = true
    /\ (sign = ""%string \/ sign = "+"%string)
    /\ ds <> ""%string
    /\ all_chars is_digit ds = true
    /\ digits_value ds <= absl.vmax
    /\ n = digits_value ds.
Proof.
  split.
  - unfold absl.SimpleAtoi, absl.safe_parse_sign_and_base. intros H.
    destruct (lstrip_split absl.ascii_isspace s) as (ws1 & Hs & Hws1).
    destruct (rstrip_split absl.ascii_isspace (lstrip absl.ascii_isspace s))
      as (ws2 & Ht & Hws2).
    destruct (rstrip absl.ascii_isspace (lstrip absl.ascii_isspace s))
      as [|c rest] eqn:Eu; [discriminate|].
    assert (Hparse : forall sign text,
               (sign = ""%string \/ sign = "+"%string) ->
               String c rest = (sign ++ text)%string -> text <> ""%string ->
               absl.safe_parse_positive_int text 0 = Some n ->
               exists ws1 sign ds ws2 : string,
                 s = (ws1 ++ sign ++ ds ++ ws2)%string
                 /\ all_chars absl.ascii_isspace ws1 = true
                 /\ all_chars absl.ascii_isspace ws2 = true
                 /\ (sign = ""%string \/ sign = "+"%string)
                 /\ ds <> ""%string
                 /\ all_chars is_digit ds = true
                 /\ digits_value ds <= absl.vmax
                 /\ n = digits_value ds).
    { intros sign text Hsign Hu Hne Hp.
      destruct (safe_parse_positive_int_inv _ _ _ Hp) as (Hall & Hn & Hmax).
      rewrite N.mul_0_l, N.add_0_l in Hn.
      exists ws1, sign, text, ws2.
      rewrite Hs at 1. rewrite Ht, Hu, !append_assoc.
      repeat split; try assumption.
      rewrite <- Hn. apply Hmax. unfold absl.vmax. lia. }
    destruct (is_char "-" c) eqn:Eminus; simpl in H.
    + destruct rest; discriminate.
    + destruct (is_char "+" c) eqn:Eplus.
      * apply Ascii.eqb_eq in Eplus. subst c.
        destruct rest as [|c' rest]; [discriminate|].
        apply (Hparse "+"%string (String c' rest));
          [now right | reflexivity | discriminate | exact H].
      * apply (Hparse ""%string (String c rest));
          [now left | reflexivity | discriminate | exact H].
  - intros (ws1 & sign & ds & ws2 & -> & Hws1 & Hws2 & Hsign & Hne & Hall
            & Hmax & ->).
    destruct (snoc_view ds) as [-> | (ds' & last & Hds)]; [contradiction|].
    assert (Hlast : absl.ascii_isspace last = false).
    { apply digit_not_space. rewrite Hds, all_chars_append in Hall.
      apply andb_prop in Hall as [_ Hall]. simpl in Hall.
      now rewrite andb_true_r in Hall. }
    assert (Hstrip : forall head : string,
               rstrip absl.ascii_isspace (head ++ ds ++ ws2)
               = (head ++ ds)%string).
    { intros head. rewrite <- append_assoc.
      rewrite rstrip_append_all by exact Hws2.
      rewrite Hds, <- append_assoc, rstrip_snoc. now rewrite Hlast. }
    destruct ds as [|c ds0]; [contradiction|].
    assert (Hc : is_digit c = true)
      by (simpl in Hall; now apply andb_prop in Hall as [Hc _]).
    unfold absl.SimpleAtoi, absl.safe_parse_sign_and_base.
    rewrite lstrip_append_all by exact Hws1.
    destruct Hsign as [-> | ->].
    + change ("" ++ String c ds0 ++ ws2)%string
        with (String c (ds0 ++ ws2)).
      cbn [lstrip]. rewrite (digit_not_space c Hc).
      change (String c (ds0 ++ ws2)) with ("" ++ String c ds0 ++ ws2)%string.
      rewrite Hstrip. cbn [append].
      rewrite (digit_not_sign c "-" Hc eq_refl).
      rewrite (digit_not_sign c "+" Hc eq_refl). cbn [orb].
      rewrite safe_parse_positive_int_digits; [f_equal; lia | exact Hall | lia].
    + change ("+" ++ String c ds0 ++ ws2)%string
        with (String "+" (String c ds0 ++ ws2)).
      cbn [lstrip]. change (absl.ascii_isspace "+") with false. cbv iota.
      change (String "+" (String c ds0 ++ ws2))
        with ("+" ++ String c ds0 ++ ws2)%string.
      rewrite Hstrip. cbn [append].
      change (is_char "-" "+") with false.
      change (is_char "+" "+") with true. cbn [orb].
      rewrite safe_parse_positive_int_digits; [f_equal; lia | exact Hall | lia].
Qed.

End SimpleAtoi.

(** ** Decoding a corpus shard path *)

Section Decoding.

Lemma extension_shape (p : string) :
  fs.extension p = "" \/ exists e, fs.extension p = String "." e.
Proof.
  unfold fs.extension, fs.split_extension.
  destruct (_ || _); [now left|].
  destruct (rsplit fs.dot (fs.filename p)) as [[|c [|c' d]] e];
    [now left | now left | right].
  now exists e.
Qed.

(** The result of [FromCorpusShardPath] follows its four checks: it is the
    work directory read from the path when all of them pass, and a failure
    that shows the path when one of them does not. *)
Lemma FromCorpusShardPath_result (path binary_name binary_hash : string) :
  (exists n,
      FromCorpusShardPath path binary_name binary_hash
      = Ok (WorkDir_of_values (fs.parent_path path) binary_name binary_hash n)
      /\ fs.stem path = "corpus"
      /\ fs.extension path <> ""
      /\ String.length (substr1 (fs.extension path)) = kDigitsInShardIndex
      /\ absl.SimpleAtoi (substr1 (fs.extension path)) = Some n)
  \/ (exists condition,
         FromCorpusShardPath path binary_name binary_hash
         = CheckFailure condition (VV "corpus_shard_path" path)
         /\ (fs.stem path <> "corpus"
             \/ fs.extension path = ""
             \/ String.length (substr1 (fs.extension path))
                <> kDigitsInShardIndex
             \/ absl.SimpleAtoi (substr1 (fs.extension path)) = None)).
Proof.
  unfold FromCorpusShardPath, kCorpusShardStem.
  destruct (String.eqb_spec (fs.stem path) "corpus") as [Hstem | Hstem];
    [|right; eexists; split; [reflexivity | now left]].
  cbn [CHECK bind].
  destruct (extension_shape path) as [Hext | (e & Hext)]; rewrite Hext.
  { right. eexists. split; [reflexivity | right; now left]. }
  change (is_char "." ".") with true. cbn [CHECK bind substr1].
  destruct (Nat.eqb_spec (String.length e) kDigitsInShardIndex) as [Hlen | Hlen];
    [|right; eexists; split; [reflexivity | right; right; now left]].
  cbn [CHECK bind].
  destruct (absl.SimpleAtoi e) as [n|] eqn:Hatoi.
  - left. exists n. repeat split; try assumption. discriminate.
  - right. eexists. split; [reflexivity | right; right; now right].
Qed.

Lemma decimal_number_length (s : string) :
  (String.length s <= 19)%nat ->
  decimal_number s <-> exists n, absl.SimpleAtoi s = Some n.
Proof.
  intros Hlen. split.
  - intros (ws1 & sign & ds & ws2 & Hs & Hws1 & Hws2 & Hsign & Hne & Hall).
    exists (digits_value ds). apply SimpleAtoi_spec.
    exists ws1, sign, ds, ws2. repeat split; try assumption.
    pose proof (digits_value_lt ds Hall) as Hlt.
    assert (Hds : (String.length ds <= 19)%nat).
    { rewrite Hs, !length_append in Hlen. lia. }
    apply N.lt_le_incl, N.lt_le_trans with (1 := Hlt).
    apply N.le_trans with (10 ^ 19)%N;
      [apply N.pow_le_mono_r; lia | now vm_compute].
  - intros (n & H). apply SimpleAtoi_spec in H
      as (ws1 & sign & ds & ws2 & Hs & Hws1 & Hws2 & Hsign & Hne & Hall & _).
    now exists ws1, sign, ds, ws2.
Qed.

(** The stem and the extension of a corpus file placed in a directory. *)
Lemma corpus_file_parts (dir ext : string) :
  contains fs.sep ext = false -> contains fs.dot ext = false ->
  fs.filename (with_separator dir ++ "corpus." ++ ext) = "corpus." ++ ext
  /\ fs.stem (with_separator dir ++ "corpus." ++ ext) = "corpus"
  /\ fs.extension (with_separator dir ++ "corpus." ++ ext) = String "." ext.
Proof.
  intros Hsep Hdot.
  assert (Hname : fs.filename (with_separator dir ++ "corpus." ++ ext)
                  = "corpus." ++ ext).
  { unfold fs.filename. now rewrite rsplit_with_separator. }
  unfold fs.stem, fs.extension. rewrite Hname.
  change ("corpus." ++ ext) with ("corpus" ++ String fs.dot ext).
  rewrite split_extension_at_dot by (assumption || discriminate).
  repeat split.
Qed.

Lemma CorpusFiles_prefix (self : WorkDir) :
  ShardedFileInfo.prefix_ (CorpusFiles self)
  = with_separator (workdir_ self) ++ "corpus.".
Proof.
  unfold CorpusFiles, ShardedFileInfo.make. cbn [ShardedFileInfo.prefix_].
  now rewrite append_relative.
Qed.

End Decoding.

(** ** The shard index in a path: encoding and decoding *)

Lemma rstrip_nil_head (p : ascii -> bool) (c : ascii) (s : string) :
  rstrip p (String c s) = "" -> p c = true.
Proof.
  simpl. destruct (rstrip p s); [|discriminate].
  now destruct (p c).
Qed.

(** C1 (round trip), as far as the code goes. When the decimal rendering
    of [shard_index] has at most [kDigitsInShardIndex] digits,
    [FromCorpusShardPath] applied to [CorpusFiles().ShardPath(shard_index)]
    returns a work directory with that shard index and the binary name and
    hash passed to it. Its working directory is the one the path was made
    from without its trailing separators, and ["/"] when that one consists
    of separators only; so it is the one the path was made from exactly when
    that one is empty, is ["/"], or does not end with a separator. *)
Theorem FromCorpusShardPath_ShardPath
  (self : WorkDir) (binary_name binary_hash : string) (shard_index : N) :
  String.length (absl.decimal shard_index) <= kDigitsInShardIndex ->
  exists dir,
    FromCorpusShardPath
      (ShardedFileInfo.ShardPath (CorpusFiles self) shard_index)
      binary_name binary_hash
    = Ok (WorkDir_of_values dir binary_name binary_hash shard_index)
    /\ dir
       = match rstrip (is_char fs.sep) (workdir_ self) with
         | EmptyString => if String.eqb (workdir_ self) "" then "" else "/"
         | stripped => stripped
         end
    /\ (dir = workdir_ self
        <-> workdir_ self = "" \/ workdir_ self = "/"
            \/ fs.has_filename (workdir_ self) = true).
Proof.
  intros Hwidth.
  pose proof (padded_index_digits shard_index) as Hdigits.
  assert (Hsep : contains fs.sep (padded_index shard_index) = false)
    by now apply digits_free.
  assert (Hdot : contains fs.dot (padded_index shard_index) = false)
    by now apply digits_free.
  assert (Hname : contains fs.sep ("corpus." ++ padded_index shard_index)
                  = false) by exact Hsep.
  assert (Hpath : ShardedFileInfo.ShardPath (CorpusFiles self) shard_index
                  = fs.append (workdir_ self)
                      ("corpus." ++ padded_index shard_index)).
  { rewrite ShardPath_eq, CorpusFiles_prefix, append_assoc.
    now rewrite append_relative. }
  exists (fs.parent_path
            (ShardedFileInfo.ShardPath (CorpusFiles self) shard_index)).
  split; [|split].
  2:{ rewrite Hpath, append_relative by reflexivity.
      rewrite parent_path_with_separator by (assumption || discriminate).
      destruct (rstrip (is_char fs.sep) (workdir_ self)) eqn:Hstrip;
        [|reflexivity].
      destruct (workdir_ self) as [|c rest]; [reflexivity|].
      apply rstrip_nil_head, Ascii.eqb_eq in Hstrip. now subst c. }
  2:{ rewrite Hpath. split.
      - now apply parent_path_append_inv.
      - now apply parent_path_append. }
  destruct (corpus_file_parts (workdir_ self) _ Hsep Hdot)
    as (_ & Hstem & Hext).
  rewrite ShardPath_eq, CorpusFiles_prefix, append_assoc.
  set (path := with_separator (workdir_ self)
               ++ "corpus." ++ padded_index shard_index) in *.
  assert (Hatoi : absl.SimpleAtoi (padded_index shard_index)
                  = Some shard_index).
  { apply SimpleAtoi_spec.
    exists "", "", (padded_index shard_index), "".
    rewrite append_nil_r, padded_index_value.
    repeat split; try assumption; try reflexivity.
    - now left.
    - apply padded_index_not_nil.
    - apply N.lt_le_incl.
      apply N.lt_le_trans with (1 := decimal_length_bound _ _ Hwidth).
      now vm_compute. }
  destruct (FromCorpusShardPath_result path binary_name binary_hash)
    as [(n & -> & _ & _ & _ & Hn) | (condition & _ & Hfail)];
    rewrite Hext in *; cbn [substr1] in *.
  - rewrite Hatoi in Hn. now injection Hn as <-.
  - rewrite Hatoi, padded_index_length in Hfail by exact Hwidth.
    destruct Hfail as [H | [H | [H | H]]]; congruence.
Qed.

Lemma FromCorpusShardPath_ShardPath_witness :
  exists dir,
    FromCorpusShardPath
      (ShardedFileInfo.ShardPath
         (CorpusFiles (WorkDir_of_values "/srv/fuzz//" "parser" "9f8e" 3)) 41)
      "parser" "9f8e"
    = Ok (WorkDir_of_values dir "parser" "9f8e" 41)
    /\ dir
       = match rstrip (is_char fs.sep) "/srv/fuzz//" with
         | EmptyString => if String.eqb "/srv/fuzz//" "" then "" else "/"
         | stripped => stripped
         end
    /\ (dir = "/srv/fuzz//"
        <-> "/srv/fuzz//" = "" \/ "/srv/fuzz//" = "/"
            \/ fs.has_filename "/srv/fuzz//" = true).
Proof.
  apply (FromCorpusShardPath_ShardPath
           (WorkDir_of_values "/srv/fuzz//" "parser" "9f8e" 3)
           "parser" "9f8e" 41).
  vm_compute. lia.
Defined.

(** C1 as stated, for every working directory, fails: a working directory
    written with a trailing separator comes back without it. *)
Lemma FromCorpusShardPath_ShardPath_trailing_separator :
  ~ (forall (rootDir binaryName binaryHash : string) (shardIndex : N),
        String.length (absl.decimal shardIndex) <= kDigitsInShardIndex ->
        exists decoded,
          FromCorpusShardPath
            (ShardedFileInfo.ShardPath
               (CorpusFiles
                  (WorkDir_of_values rootDir binaryName binaryHash shardIndex))
               shardIndex)
            binaryName binaryHash
          = Ok decoded
          /\ my_shard_index_ decoded = shardIndex
          /\ workdir_ decoded = rootDir).
Proof.
  intros H.
  destruct (H "/data/run1/" "target" "abcd1234" 7%N) as (decoded & Hd & _ & Hw).
  - vm_compute. lia.
  - vm_compute in Hd. injection Hd as <-. discriminate Hw.
Qed.

(** C2 (encode-width overflow), at the shard index 1000000: [ShardPath]
    has no failure to report and returns a path with seven digits, which
    [FromCorpusShardPath] then refuses at its width check. *)
Theorem ShardPath_overflow_is_silent :
  ShardedFileInfo.ShardPath
    (CorpusFiles (WorkDir_of_values "/data/run1" "target" "abcd1234" 0))
    1000000
  = "/data/run1/corpus.1000000"
  /\ FromCorpusShardPath "/data/run1/corpus.1000000" "target" "abcd1234"
     = CheckFailure "ext.size() == kDigitsInShardIndex"
         (VV "corpus_shard_path" "/data/run1/corpus.1000000").
Proof. split; reflexivity. Qed.

(** C3 (decode strictness), as far as the code goes. [FromCorpusShardPath]
    returns a work directory exactly when the stem of the path is
    ["corpus"], the extension is not empty, and the extension after its dot
    has [kDigitsInShardIndex] characters that [SimpleAtoi] reads as a number:
    decimal digits, optionally after a ["+"] and between whitespace. On every
    other path it stops at a failed check whose message shows the path. *)
Theorem FromCorpusShardPath_accepts
  (path binary_name binary_hash : string) :
  let accepted :=
    fs.stem path = "corpus"
    /\ fs.extension path <> ""
    /\ String.length (substr1 (fs.extension path)) = kDigitsInShardIndex
    /\ decimal_number (substr1 (fs.extension path)) in
  ((exists decoded,
       FromCorpusShardPath path binary_name binary_hash = Ok decoded)
   <-> accepted)
  /\ ((exists condition,
          FromCorpusShardPath path binary_name binary_hash
          = CheckFailure condition (VV "corpus_shard_path" path))
      <-> ~ accepted).
Proof.
  intros accepted. unfold accepted.
  assert (Hnum : String.length (substr1 (fs.extension path))
                 = kDigitsInShardIndex ->
                 decimal_number (substr1 (fs.extension path))
                 <-> exists n,
                     absl.SimpleAtoi (substr1 (fs.extension path)) = Some n).
  { intros Hlen. apply decimal_number_length. rewrite Hlen.
    unfold kDigitsInShardIndex. lia. }
  destruct (FromCorpusShardPath_result path binary_name binary_hash)
    as [(n & -> & Hstem & Hext & Hlen & Hn) | (condition & -> & Hfail)].
  - assert (Hacc : fs.stem path = "corpus"
                   /\ fs.extension path <> ""
                   /\ String.length (substr1 (fs.extension path))
                      = kDigitsInShardIndex
                   /\ decimal_number (substr1 (fs.extension path))).
    { repeat split; try assumption. apply (Hnum Hlen). now exists n. }
    split; split.
    + intros _. exact Hacc.
    + intros _. now eexists.
    + intros (c & Hc). discriminate Hc.
    + intros Hno. now destruct (Hno Hacc).
  - assert (Hrej : ~ (fs.stem path = "corpus"
                      /\ fs.extension path <> ""
                      /\ String.length (substr1 (fs.extension path))
                         = kDigitsInShardIndex
                      /\ decimal_number (substr1 (fs.extension path)))).
    { intros (Hstem & Hext & Hlen & Hdec).
      apply (Hnum Hlen) in Hdec as (n & Hn).
      destruct Hfail as [H | [H | [H | H]]]; congruence. }
    split; split.
    + intros (d & Hd). discriminate Hd.
    + intros Hacc. now destruct (Hrej Hacc).
    + intros _. exact Hrej.
    + intros _. now eexists.
Qed.

(** C3 as stated fails: a path whose extension holds a sign in front of
    the digits is accepted, here ["corpus.+00007"] as shard 7. *)
Lemma FromCorpusShardPath_accepts_sign :
  ~ (forall path binary_name binary_hash : string,
        (exists decoded,
            FromCorpusShardPath path binary_name binary_hash = Ok decoded)
        <-> fs.stem path = "corpus"
            /\ fs.extension path <> ""
            /\ String.length (substr1 (fs.extension path))
               = kDigitsInShardIndex
            /\ all_chars is_digit (substr1 (fs.extension path)) = true).
Proof.
  intros H.
  destruct (H "/data/run1/corpus.+00007" "target" "abcd1234") as [Hto _].
  destruct Hto as (_ & _ & _ & Hdigits).
  - eexists. vm_compute. reflexivity.
  - vm_compute in Hdigits. discriminate Hdigits.
Qed.

(** C4 (fixed width). For a shard index below [10 ^ kDigitsInShardIndex],
    [ShardPath] returns the prefix followed by exactly
    [kDigitsInShardIndex] decimal digits, which denote the shard index. *)
Theorem ShardPath_fixed_width (self : ShardedFileInfo.t) (shard_index : N) :
  (shard_index < 10 ^ N.of_nat kDigitsInShardIndex)%N ->
  exists digits,
    ShardedFileInfo.ShardPath self shard_index
    = ShardedFileInfo.prefix_ self ++ digits
    /\ String.length digits = kDigitsInShardIndex
    /\ all_chars is_digit digits = true
    /\ digits_value digits = shard_index.
Proof.
  intros Hlt. exists (padded_index shard_index). repeat split.
  - apply ShardPath_eq.
  - apply padded_index_length, decimal_length_le; [|exact Hlt].
    unfold kDigitsInShardIndex. lia.
  - apply padded_index_digits.
  - apply padded_index_value.
Qed.

Lemma ShardPath_fixed_width_witness :
  exists digits,
    ShardedFileInfo.ShardPath (ShardedFileInfo.make "/w" "features." 0) 123
    = "/w/features." ++ digits
    /\ String.length digits = 6
    /\ all_chars is_digit digits = true
    /\ digits_value digits = 123%N.
Proof.
  apply (ShardPath_fixed_width (ShardedFileInfo.make "/w" "features." 0) 123).
  vm_compute. reflexivity.
Defined.

(** C5 (concrete scenario, width 6). For the work directory
    ["/data/run1"], binary ["target"], hash ["abcd1234"] and shard 7, the
    corpus file of the shard is ["/data/run1/corpus.000007"], the coverage
    directory is ["/data/run1/target-abcd1234"], and decoding that corpus
    path gives back shard 7 in ["/data/run1"]. *)
Theorem concrete_scenario :
  let self := WorkDir_of_values "/data/run1" "target" "abcd1234" 7 in
  kDigitsInShardIndex = 6
  /\ ShardedFileInfo.MyShardPath (CorpusFiles self)
     = "/data/run1/corpus.000007"
  /\ CoverageDirPath self = "/data/run1/target-abcd1234"
  /\ exists decoded,
      FromCorpusShardPath "/data/run1/corpus.000007" "target" "abcd1234"
      = Ok decoded
      /\ my_shard_index_ decoded = 7%N
      /\ workdir_ decoded = "/data/run1".
Proof.
  cbv zeta. repeat split. eexists. repeat split.
Qed.

(** C8 (distinctness). Within one group of sharded files, different shard
    indices have different paths. *)
Theorem ShardPath_distinct (self : ShardedFileInfo.t) (i j : N) :
  i <> j ->
  ShardedFileInfo.ShardPath self i <> ShardedFileInfo.ShardPath self j.
Proof.
  intros Hij H. rewrite !ShardPath_eq in H.
  apply append_inv_head, padded_index_inj in H. contradiction.
Qed.

Lemma ShardPath_distinct_witness :
  ShardedFileInfo.ShardPath (ShardedFileInfo.make "/w" "corpus." 0) 1
  <> ShardedFileInfo.ShardPath (ShardedFileInfo.make "/w" "corpus." 0) 1000001.
Proof.
  apply (ShardPath_distinct (ShardedFileInfo.make "/w" "corpus." 0) 1 1000001).
  lia.
Defined.

(** ** Report paths *)

Lemma report_path_rule_of_format
  (report : WorkDir -> string -> Checked string) (kind extension : string) :
  (forall self annotation,
      report self annotation
      = (normalized <- NormalizeAnnotation annotation ;;
         Ok (fs.append (workdir_ self)
               (kind ++ binary_name_ self ++ "."
                ++ padded_index (my_shard_index_ self)
                ++ normalized ++ extension)))) ->
  report_path_rule report kind extension.
Proof.
  intros Hreport self [|front rest]; cbv zeta; rewrite Hreport.
  - reflexivity.
  - unfold NormalizeAnnotation.
    destruct (is_char "." front); cbn [negb CHECK bind].
    + now eexists; eexists.
    + unfold absl.StrCat. cbn [fold_right]. now rewrite append_nil_r.
Qed.

(** C6 (annotation normalization). Each of the five report paths follows
    the rule [report_path_rule]: no inserted segment for an empty
    annotation, a dot and the annotation in front of the final extension
    (which is empty for the source coverage report) for an annotation that
    does not start with a dot, and a failed check for one that does. *)
Theorem report_paths_normalize_annotation :
  report_path_rule CoverageReportPath "coverage-report-" ".txt"
  /\ report_path_rule CorpusStatsPath "corpus-stats-" ".json"
  /\ report_path_rule FuzzingStatsPath "fuzzing-stats-" ".csv"
  /\ report_path_rule RUsageReportPath "rusage-report-" ".txt"
  /\ report_path_rule SourceBasedCoverageReportPath
       "source-coverage-report-" "".
Proof.
  repeat split; apply report_path_rule_of_format; intros self annotation;
    [ unfold CoverageReportPath | unfold CorpusStatsPath
    | unfold FuzzingStatsPath | unfold RUsageReportPath
    | unfold SourceBasedCoverageReportPath ];
    destruct (NormalizeAnnotation annotation) as [normalized|];
    cbn [bind]; [|reflexivity | |reflexivity | |reflexivity | |reflexivity
                 | |reflexivity];
    do 2 f_equal; unfold padded_index;
    cbn [absl.StrFormat append]; rewrite ?append_nil_r; reflexivity.
Qed.

(** ** Enumerating the raw coverage profiles *)

Lemma EnumerateRawCoverageProfiles_loop_spec
  (dir_path : string) (dir_iter : directory_stream) :
  forall found : list string,
    EnumerateRawCoverageProfiles_loop dir_path dir_iter found
    = match first_failure dir_iter with
      | Some what => Thrown what
      | None =>
          Returned
            (found
             ++ map (fun e => fs.append dir_path (fst e))
                  (filter (is_raw_profile dir_path) (listed dir_iter)))%list
      end.
Proof.
  induction dir_iter as [|what|name status next IH]; intros found; simpl.
  - now rewrite app_nil_r.
  - reflexivity.
  - destruct status as [regular | what]; [|reflexivity].
    rewrite IH. destruct (first_failure next); [reflexivity|].
    unfold is_raw_profile at 2. cbn [fst snd].
    destruct (regular && _); [|reflexivity].
    now rewrite <- app_assoc.
Qed.



(** ** The two constructors *)

(** Every path function reads the four views only. *)
Lemma paths_of_same_views (a b : WorkDir) :
  same_views a b ->
  CoverageDirPath a = CoverageDirPath b
  /\ CrashReproducerDirPath a = CrashReproducerDirPath b
  /\ BinaryInfoDirPath a = BinaryInfoDirPath b
  /\ sharded_file_groups a = sharded_file_groups b
  /\ (forall annotation,
         CoverageReportPath a annotation = CoverageReportPath b annotation
         /\ CorpusStatsPath a annotation = CorpusStatsPath b annotation
         /\ FuzzingStatsPath a annotation = FuzzingStatsPath b annotation
         /\ RUsageReportPath a annotation = RUsageReportPath b annotation
         /\ SourceBasedCoverageReportPath a annotation
            = SourceBasedCoverageReportPath b annotation)
  /\ SourceBasedCoverageRawProfilePath a = SourceBasedCoverageRawProfilePath b
  /\ SourceBasedCoverageIndexedProfilePath a
     = SourceBasedCoverageIndexedProfilePath b
  /\ (forall disk,
         EnumerateRawCoverageProfiles disk a
         = EnumerateRawCoverageProfiles disk b).
Proof.
  intros (Hdir & Hname & Hhash & Hindex).
  assert (Hcov : CoverageDirPath a = CoverageDirPath b)
    by (unfold CoverageDirPath; now rewrite Hdir, Hname, Hhash).
  repeat split;
    unfold CrashReproducerDirPath, BinaryInfoDirPath, sharded_file_groups,
      CorpusFiles, DistilledCorpusFiles, FeaturesFiles,
      DistilledFeaturesFiles, CoverageReportPath, CorpusStatsPath,
      FuzzingStatsPath, RUsageReportPath, SourceBasedCoverageReportPath,
      SourceBasedCoverageRawProfilePath,
      SourceBasedCoverageIndexedProfilePath, EnumerateRawCoverageProfiles;
    now rewrite ?Hcov, ?Hdir, ?Hname, ?Hhash, ?Hindex.
Qed.

(** C10 (constructor equivalence). The work directory built from four
    values and the one built from an environment that holds the same four
    values give equal results in every path function: the three directory
    paths, the four groups of sharded files (hence their shard paths and
    globs), the five report paths, the two profile paths and the
    enumeration of raw profiles. *)
Theorem constructors_agree (env : Environment.t) :
  let owned :=
    WorkDir_of_values (Environment.workdir env) (Environment.binary_name env)
      (Environment.binary_hash env) (Environment.my_shard_index env) in
  let borrowed := WorkDir_of_env env in
  CoverageDirPath owned = CoverageDirPath borrowed
  /\ CrashReproducerDirPath owned = CrashReproducerDirPath borrowed
  /\ BinaryInfoDirPath owned = BinaryInfoDirPath borrowed
  /\ sharded_file_groups owned = sharded_file_groups borrowed
  /\ (forall annotation,
         CoverageReportPath owned annotation
         = CoverageReportPath borrowed annotation
         /\ CorpusStatsPath owned annotation
            = CorpusStatsPath borrowed annotation
         /\ FuzzingStatsPath owned annotation
            = FuzzingStatsPath borrowed annotation
         /\ RUsageReportPath owned annotation
            = RUsageReportPath borrowed annotation
         /\ SourceBasedCoverageReportPath owned annotation
            = SourceBasedCoverageReportPath borrowed annotation)
  /\ SourceBasedCoverageRawProfilePath owned
     = SourceBasedCoverageRawProfilePath borrowed
  /\ SourceBasedCoverageIndexedProfilePath owned
     = SourceBasedCoverageIndexedProfilePath borrowed
  /\ (forall disk,
         EnumerateRawCoverageProfiles disk owned
         = EnumerateRawCoverageProfiles disk borrowed).
Proof.
  intros owned borrowed. apply paths_of_same_views. now repeat split.
Qed.

(** ** Glob patterns *)

Section Glob.

(** Two texts with a common extension: one of the heads starts the other. *)
Lemma append_split (a : string) :
  forall b x y : string,
    a ++ x = b ++ y ->
    (exists t, b = a ++ t /\ x = t ++ y)
    \/ (exists t, a = b ++ t /\ y = t ++ x).
Proof.
  induction a as [|c a IH]; intros b x y H.
  - left. exists b. now split.
  - destruct b as [|d b].
    + right. exists (String c a). now split.
    + simpl in H. injection H as <- H.
      destruct (IH b x y H) as [(t & -> & ->) | (t & -> & ->)].
      * left. now exists t.
      * right. now exists t.
Qed.

Lemma snoc_inj (a : string) :
  forall (b : string) (c d : ascii),
    a ++ String c "" = b ++ String d "" -> a = b /\ c = d.
Proof.
  induction a as [|h a IH]; intros [|k b] c d H; simpl in H.
  - injection H as ->. now split.
  - injection H as _ H. now destruct b.
  - injection H as _ H. now destruct a.
  - injection H as <- H. destruct (IH b c d H) as [-> ->]. now split.
Qed.

(** The end of a text that ends in [c] contains [c], unless it is empty. *)
Lemma contains_last (c : ascii) (q b t : string) :
  q ++ String c "" = b ++ t -> t <> "" -> contains c t = true.
Proof.
  intros H Ht. destruct (snoc_view t) as [-> | (t' & d & ->)];
    [contradiction|].
  rewrite <- append_assoc in H. apply snoc_inj in H as [_ <-].
  rewrite contains_append. simpl. unfold is_char.
  now rewrite Ascii.eqb_refl, orb_true_r.
Qed.

Lemma component_start_snoc (leading : bool) (q : string) (c : ascii) :
  component_start leading (q ++ String c "") = is_char fs.sep c.
Proof.
  revert leading. induction q as [|d q IH]; intros leading;
    [reflexivity | apply IH].
Qed.

(** *** The tokens of a pattern *)

Lemma tokens_plain (p : string) :
  forall q : string,
    contains "[" p = false -> contains "\" p = false ->
    tokens_from 0 (p ++ q) = (map plain_token (list_ascii_of_string p) ++ tokens_from 0 q)%list.
Proof.
  induction p as [|c p IH]; intros q Hb He; [reflexivity|].
  simpl in Hb, He. apply orb_false_elim in Hb as [Hb Hb'].
  apply orb_false_elim in He as [He He'].
  cbn [append tokens_from map list_ascii_of_string]. unfold plain_token at 1.
  rewrite Hb, He, (IH q Hb' He').
  now destruct (is_char "*" c), (is_char "?" c).
Qed.

Lemma wildcard_free_tokens (p : string) :
  wildcard_free p = true ->
  contains "[" p = false /\ contains "\" p = false
  /\ map plain_token (list_ascii_of_string p)
     = map Literal (list_ascii_of_string p).
Proof.
  unfold wildcard_free, glob_special, plain_token.
  induction p as [|c p IH]; [now repeat split|].
  simpl. intros H. apply andb_prop in H as [Hc H].
  destruct (IH H) as (-> & -> & ->).
  destruct (is_char "*" c), (is_char "?" c), (is_char "[" c),
    (is_char "\" c); try discriminate Hc.
  now repeat split.
Qed.

(** *** Matching *)

(** The matcher on a few patterns of glob(7). *)
Lemma glob_match_examples :
  glob_match "/w/*" "/w/shown" = true
  /\ glob_match "/w/*" "/w/.hidden" = false
  /\ glob_match "/w/.*" "/w/.hidden" = true
  /\ glob_match "/w/*" "/w/a/b" = false
  /\ glob_match "/w/?x" "/w/ax" = true
  /\ glob_match "/w/?x" "/w/.x" = false
  /\ glob_match "/w/[a-c]x" "/w/bx" = true
  /\ glob_match "/w/[!a-c]x" "/w/bx" = false
  /\ glob_match "/w/[!a-c]x" "/w/dx" = true
  /\ glob_match "/w/[]-]x" "/w/]x" = true
  /\ glob_match "/w/[x" "/w/[x" = true
  /\ glob_match "/w/\*x" "/w/*x" = true
  /\ glob_match "/w/\*x" "/w/ax" = false
  /\ glob_match "/w/x\" "/w/x\" = false.
Proof. repeat split; reflexivity. Qed.

Lemma any_run_eq (rest : bool -> string -> bool) (leading : bool) (s : string) :
  any_run rest leading s
  = rest leading s
    || match s with
       | EmptyString => false
       | String c s' => negb (is_char fs.sep c) && any_run rest false s'
       end.
Proof. now destruct s. Qed.

Lemma match_tokens_run (pattern : list glob_token) (leading : bool)
  (s : string) :
  match_tokens (AnyRun :: pattern) leading s
  = negb (period_at_start leading s)
    && any_run (match_tokens pattern) leading s.
Proof. reflexivity. Qed.

(** An asterisk at the end of the pattern takes what has no separator. *)
Lemma any_run_end (leading : bool) (s : string) :
  any_run (match_tokens []) leading s = negb (contains fs.sep s).
Proof.
  revert leading. induction s as [|c s IH]; intros leading; [reflexivity|].
  rewrite any_run_eq, IH. cbn [match_tokens contains orb].
  now destruct (is_char fs.sep c).
Qed.

(** A pattern without bracket and backslash, then an asterisk, matches
    itself followed by a text without separator that is not a period at the
    start of a component. *)
Lemma match_tokens_prefix (p : string) :
  forall (leading : bool) (d : string),
    contains fs.sep d = false ->
    period_at_start (component_start leading p) d = false ->
    match_tokens (map plain_token (list_ascii_of_string p) ++ [AnyRun])%list
      leading (p ++ d)
    = true.
Proof.
  induction p as [|c p IH]; intros leading d Hd Hp.
  - cbn [map app append component_start list_ascii_of_string] in *.
    now rewrite match_tokens_run, Hp, any_run_end, Hd.
  - cbn [map app append component_start list_ascii_of_string] in *.
    unfold plain_token at 1.
    unfold is_char at 1 2.
    destruct (Ascii.eqb_spec c "*") as [-> | Hstar];
      [|destruct (Ascii.eqb_spec c "?") as [-> | Hany]].
    + change (is_char fs.sep "*") with false in Hp.
      rewrite match_tokens_run, any_run_eq, (any_run_eq _ false).
      rewrite (IH false d Hd Hp). unfold period_at_start.
      change (is_char fs.dot "*") with false.
      change (is_char fs.sep "*") with false.
      rewrite andb_false_r. cbn [negb andb orb]. apply orb_true_r.
    + cbn [match_tokens one_char]. rewrite (IH _ d Hd Hp).
      change (is_char fs.dot "?") with false.
      change (is_char fs.sep "?") with false.
      now rewrite andb_false_r.
    + cbn [match_tokens one_char]. rewrite (IH _ d Hd Hp).
      unfold is_char. now rewrite Ascii.eqb_refl.
Qed.

(** What a pattern of ordinary characters and a final asterisk matches
    starts with these characters and goes on without separator. *)
Lemma match_tokens_literal (p : string) :
  forall (leading : bool) (s : string),
    match_tokens (map Literal (list_ascii_of_string p) ++ [AnyRun])%list leading s = true ->
    exists r, s = p ++ r /\ contains fs.sep r = false.
Proof.
  induction p as [|c p IH]; intros leading s H.
  - cbn [map app list_ascii_of_string] in H. rewrite match_tokens_run, any_run_end in H.
    apply andb_prop in H as [_ H]. exists s. split; [reflexivity|].
    now destruct (contains fs.sep s).
  - cbn [map app match_tokens one_char list_ascii_of_string] in H.
    destruct s as [|k s]; [discriminate|].
    apply andb_prop in H as [Hk H]. apply Ascii.eqb_eq in Hk. subst k.
    destruct (IH _ s H) as (r & -> & Hr). now exists r.
Qed.

End Glob.

(** ** The globs of the four groups *)

Section Groups.

Lemma AllShardsGlob_eq (g : ShardedFileInfo.t) :
  ShardedFileInfo.AllShardsGlob g = ShardedFileInfo.prefix_ g ++ "*".
Proof. reflexivity. Qed.

(** A directory named [x-h] lies at least one separator below [x]. *)
Lemma count_with_separator_below (x h : string) :
  count_char fs.sep x < count_char fs.sep (with_separator (x ++ String "-" h)).
Proof.
  unfold with_separator.
  destruct (snoc_view h) as [-> | (h' & c & ->)].
  - rewrite has_filename_snoc. simpl. rewrite !count_char_append. simpl. lia.
  - change (x ++ String "-" (h' ++ String c ""))
      with (x ++ String "-" "" ++ h' ++ String c "").
    rewrite <- !append_assoc, has_filename_snoc.
    destruct (is_char fs.sep c) eqn:Ec; simpl;
      rewrite !count_char_append; simpl; rewrite ?Ec; lia.
Qed.

(** Two files differ when their directories differ in depth or their names
    differ. *)
Lemma paths_apart (d1 n1 d2 n2 : string) :
  contains fs.sep n1 = false -> contains fs.sep n2 = false ->
  count_char fs.sep (with_separator d1) <> count_char fs.sep (with_separator d2)
  \/ n1 <> n2 ->
  with_separator d1 ++ n1 <> with_separator d2 ++ n2.
Proof.
  intros H1 H2 Hdiff Heq. destruct Hdiff as [Hcount | Hname].
  - apply (f_equal (count_char fs.sep)) in Heq.
    rewrite !count_char_append in Heq.
    rewrite (count_char_free _ _ H1), (count_char_free _ _ H2) in Heq. lia.
  - apply (f_equal (rsplit fs.sep)) in Heq.
    rewrite !rsplit_with_separator in Heq by assumption. congruence.
Qed.

(** The pattern of a group is the tokens of its prefix and an asterisk. *)
Lemma AllShardsGlob_tokens (g : ShardedFileInfo.t) :
  contains "[" (ShardedFileInfo.prefix_ g) = false ->
  contains "\" (ShardedFileInfo.prefix_ g) = false ->
  tokens_from 0 (ShardedFileInfo.AllShardsGlob g)
  = (map plain_token (list_ascii_of_string (ShardedFileInfo.prefix_ g))
     ++ [AnyRun])%list.
Proof.
  intros Hb He. rewrite AllShardsGlob_eq. now rewrite tokens_plain.
Qed.

Variable self : WorkDir.
Hypothesis plain_name : contains fs.sep (binary_name_ self) = false.

Lemma CoverageDirPath_eq :
  CoverageDirPath self
  = (with_separator (workdir_ self) ++ binary_name_ self)
    ++ String "-" (binary_hash_ self).
Proof.
  unfold CoverageDirPath, absl.StrCat. cbn [fold_right].
  rewrite append_nil_r, append_relative, append_assoc; [reflexivity|].
  pose proof plain_name as Hname.
  destruct (binary_name_ self) as [|c b]; [reflexivity|].
  simpl in Hname |- *. now apply orb_false_elim in Hname as [-> _].
Qed.

Lemma coverage_dir_below :
  count_char fs.sep (with_separator (workdir_ self))
  < count_char fs.sep (with_separator (CoverageDirPath self)).
Proof.
  rewrite CoverageDirPath_eq.
  eapply Nat.le_lt_trans; [|apply count_with_separator_below].
  rewrite count_char_append. lia.
Qed.

Lemma groups_prefix :
  ShardedFileInfo.prefix_ (CorpusFiles self)
  = with_separator (workdir_ self) ++ "corpus."
  /\ ShardedFileInfo.prefix_ (DistilledCorpusFiles self)
     = with_separator (workdir_ self)
       ++ "distilled-" ++ binary_name_ self ++ "."
  /\ ShardedFileInfo.prefix_ (FeaturesFiles self)
     = with_separator (CoverageDirPath self) ++ "features."
  /\ ShardedFileInfo.prefix_ (DistilledFeaturesFiles self)
     = with_separator (CoverageDirPath self)
       ++ "distilled-features-" ++ binary_name_ self ++ ".".
Proof.
  unfold CorpusFiles, DistilledCorpusFiles, FeaturesFiles,
    DistilledFeaturesFiles, ShardedFileInfo.make, absl.StrCat.
  cbn [ShardedFileInfo.prefix_ fold_right].
  rewrite !append_nil_r. repeat split; now rewrite append_relative.
Qed.

(** The prefix of each of the four groups ends in a period. *)
Lemma groups_prefix_period (g : ShardedFileInfo.t) :
  In g (sharded_file_groups self) ->
  exists q, ShardedFileInfo.prefix_ g = q ++ ".".
Proof.
  destruct groups_prefix as (Hc & Hd & Hf & Hdf).
  intros [<- | [<- | [<- | [<- | []]]]].
  - exists (with_separator (workdir_ self) ++ "corpus").
    now rewrite Hc, append_assoc.
  - exists (with_separator (workdir_ self)
            ++ "distilled-" ++ binary_name_ self).
    now rewrite Hd, !append_assoc.
  - exists (with_separator (CoverageDirPath self) ++ "features").
    now rewrite Hf, append_assoc.
  - exists (with_separator (CoverageDirPath self)
            ++ "distilled-features-" ++ binary_name_ self).
    now rewrite Hdf, !append_assoc.
Qed.

End Groups.

(** Files of two of the four groups of one work directory differ, whatever
    follows the prefixes, as long as it has no separator. *)
Lemma groups_apart
  (self : WorkDir) (i j : nat) (g h : ShardedFileInfo.t) (x y : string) :
  contains fs.sep (binary_name_ self) = false ->
  nth_error (sharded_file_groups self) i = Some g ->
  nth_error (sharded_file_groups self) j = Some h ->
  i <> j ->
  contains fs.sep x = false -> contains fs.sep y = false ->
  ShardedFileInfo.prefix_ g ++ x <> ShardedFileInfo.prefix_ h ++ y.
Proof.
  intros Hname Hg Hh Hij Hx Hy.
  destruct (groups_prefix self) as (Hc & Hd & Hf & Hdf).
  pose proof (coverage_dir_below self Hname) as Hbelow.
  assert (Hsep : forall n z,
             contains fs.sep n = false -> contains fs.sep z = false ->
             contains fs.sep (n ++ z) = false)
    by (intros n z Hn Hz; now rewrite contains_append, Hn, Hz).
  assert (Hb : forall n,
             contains fs.sep n = false ->
             contains fs.sep (n ++ binary_name_ self ++ ".") = false)
    by (intros n Hn; now rewrite !contains_append, Hn, Hname).
  destruct i as [|[|[|[|i]]]]; simpl in Hg; try (destruct i; discriminate);
    injection Hg as <-;
    (destruct j as [|[|[|[|j]]]]; simpl in Hh; try (destruct j; discriminate);
     injection Hh as <-);
    try contradiction;
    rewrite ?Hc, ?Hd, ?Hf, ?Hdf;
    rewrite (append_assoc _ _ x), (append_assoc _ _ y);
    apply paths_apart;
    try (left; lia); try (right; discriminate);
    try (apply Hsep; [|assumption]);
    try (apply (Hb "distilled-")); try (apply (Hb "distilled-features-"));
    reflexivity.
Qed.

(** C7 (glob correctness), as far as the code goes. Let [g] be one of the
    four groups of a work directory and [h] one of the four groups of a work
    directory, the same or another. When the prefix of [g] has no opening
    bracket and no backslash, the pattern of [AllShardsGlob] of [g] matches
    every shard path of [g], and every shard path of [h] when the prefix of
    [h] is the prefix of [g] followed by a text without separator. When the
    prefix of [g] has no asterisk and no question mark either, these are the
    only shard paths of [h] that the pattern matches. *)
Theorem AllShardsGlob_matches
  (a b : WorkDir) (g h : ShardedFileInfo.t) (shard_index : N) :
  In g (sharded_file_groups a) ->
  In h (sharded_file_groups b) ->
  (contains "[" (ShardedFileInfo.prefix_ g) = false ->
   contains "\" (ShardedFileInfo.prefix_ g) = false ->
   glob_match (ShardedFileInfo.AllShardsGlob g)
     (ShardedFileInfo.ShardPath g shard_index) = true
   /\ forall r,
       ShardedFileInfo.prefix_ h = ShardedFileInfo.prefix_ g ++ r ->
       contains fs.sep r = false ->
       glob_match (ShardedFileInfo.AllShardsGlob g)
         (ShardedFileInfo.ShardPath h shard_index) = true)
  /\ (wildcard_free (ShardedFileInfo.prefix_ g) = true ->
      glob_match (ShardedFileInfo.AllShardsGlob g)
        (ShardedFileInfo.ShardPath h shard_index) = true ->
      exists r,
        ShardedFileInfo.prefix_ h = ShardedFileInfo.prefix_ g ++ r
        /\ contains fs.sep r = false).
Proof.
  intros Hg Hh.
  destruct (groups_prefix_period a g Hg) as (q & Hq).
  pose proof (padded_index_digits shard_index) as Hdigits.
  assert (Hsep : contains fs.sep (padded_index shard_index) = false)
    by now apply digits_free.
  assert (Hdot : contains fs.dot (padded_index shard_index) = false)
    by now apply digits_free.
  assert (Hstart : forall d,
             period_at_start
               (component_start true (ShardedFileInfo.prefix_ g)) d = false)
    by (intros d; rewrite Hq; unfold period_at_start;
        now rewrite component_start_snoc).
  unfold glob_match. rewrite !ShardPath_eq. split.
  - intros Hb He. rewrite (AllShardsGlob_tokens g Hb He). split.
    + now apply match_tokens_prefix.
    + intros r -> Hr. rewrite append_assoc. apply match_tokens_prefix.
      * now rewrite contains_append, Hr.
      * apply Hstart.
  - intros Hfree Hmatch.
    destruct (wildcard_free_tokens _ Hfree) as (Hb & He & Hplain).
    rewrite (AllShardsGlob_tokens g Hb He), Hplain in Hmatch.
    apply match_tokens_literal in Hmatch as (r' & Heq & Hr').
    symmetry in Heq.
    apply append_split in Heq as [(t & Ht & ->) | (t & Ht & Hd)].
    + exists t. split; [exact Ht|].
      rewrite contains_append in Hr'. now apply orb_false_elim in Hr'.
    + destruct t as [|c t].
      * exists "". rewrite append_nil_r in Ht. now rewrite append_nil_r.
      * exfalso. rewrite Hq in Ht.
        apply contains_last in Ht; [|discriminate].
        rewrite Hd, contains_append in Hdot.
        apply orb_false_elim in Hdot as [Hdot _].
        change (contains "." (String c t) = false) in Hdot. congruence.
Qed.

Lemma AllShardsGlob_matches_witness :
  let a := WorkDir_of_values "/srv/fuzz" "parser" "9f8e" 3 in
  let b := WorkDir_of_values "/srv/fuzz" "parser.v2" "77aa" 0 in
  let g := DistilledCorpusFiles a in
  let h := DistilledCorpusFiles b in
  (contains "[" (ShardedFileInfo.prefix_ g) = false ->
   contains "\" (ShardedFileInfo.prefix_ g) = false ->
   glob_match (ShardedFileInfo.AllShardsGlob g)
     (ShardedFileInfo.ShardPath g 12) = true
   /\ forall r,
       ShardedFileInfo.prefix_ h = ShardedFileInfo.prefix_ g ++ r ->
       contains fs.sep r = false ->
       glob_match (ShardedFileInfo.AllShardsGlob g)
         (ShardedFileInfo.ShardPath h 12) = true)
  /\ (wildcard_free (ShardedFileInfo.prefix_ g) = true ->
      glob_match (ShardedFileInfo.AllShardsGlob g)
        (ShardedFileInfo.ShardPath h 12) = true ->
      exists r,
        ShardedFileInfo.prefix_ h = ShardedFileInfo.prefix_ g ++ r
        /\ contains fs.sep r = false).
Proof.
  apply (AllShardsGlob_matches
           (WorkDir_of_values "/srv/fuzz" "parser" "9f8e" 3)
           (WorkDir_of_values "/srv/fuzz" "parser.v2" "77aa" 0)
           (DistilledCorpusFiles
              (WorkDir_of_values "/srv/fuzz" "parser" "9f8e" 3))
           (DistilledCorpusFiles
              (WorkDir_of_values "/srv/fuzz" "parser.v2" "77aa" 0)) 12).
  - right. left. reflexivity.
  - right. left. reflexivity.
Defined.

(** C7 as stated fails in both halves. The pattern of a group need not
    match the shard paths of the group: in the work directory ["/w[1]"] the
    pattern of the corpus files is ["/w[1]/corpus.*"], where ["[1]"] stands
    for the character ["1"], and the corpus files are
    ["/w[1]/corpus.000000"] and so on. And the pattern may match the shard
    paths of a group with a different prefix: two binaries named ["x"] and
    ["x.y"] share the work directory ["/w"], and the glob of the distilled
    corpus of the first matches the distilled corpus files of the second. *)
Lemma AllShardsGlob_matches_other_binary :
  ~ (forall (a : WorkDir) (g : ShardedFileInfo.t) (shard_index : N),
        In g (sharded_file_groups a) ->
        glob_match (ShardedFileInfo.AllShardsGlob g)
          (ShardedFileInfo.ShardPath g shard_index) = true)
  /\ ~ (forall (a b : WorkDir) (g h : ShardedFileInfo.t) (shard_index : N),
           In g (sharded_file_groups a) -> In h (sharded_file_groups b) ->
           ShardedFileInfo.prefix_ g <> ShardedFileInfo.prefix_ h ->
           glob_match (ShardedFileInfo.AllShardsGlob g)
             (ShardedFileInfo.ShardPath h shard_index) = false).
Proof.
  split; intros H.
  - specialize (H (WorkDir_of_values "/w[1]" "x" "1a2b" 0)
                  (CorpusFiles (WorkDir_of_values "/w[1]" "x" "1a2b" 0))
                  0%N (or_introl eq_refl)).
    vm_compute in H. discriminate H.
  - specialize (H (WorkDir_of_values "/w" "x" "1a2b" 0)
                  (WorkDir_of_values "/w" "x.y" "3c4d" 0)
                  (DistilledCorpusFiles (WorkDir_of_values "/w" "x" "1a2b" 0))
                  (DistilledCorpusFiles
                     (WorkDir_of_values "/w" "x.y" "3c4d" 0))
                  5%N (or_intror (or_introl eq_refl))
                  (or_intror (or_introl eq_refl))).
    assert (Hdiff : ShardedFileInfo.prefix_
                      (DistilledCorpusFiles (WorkDir_of_values "/w" "x" "1a2b" 0))
                    <> ShardedFileInfo.prefix_
                         (DistilledCorpusFiles
                            (WorkDir_of_values "/w" "x.y" "3c4d" 0)))
      by (vm_compute; discriminate).
    specialize (H Hdiff). vm_compute in H. discriminate H.
Qed.

(** The characters excluded from the prefix matter, each of them. With a
    backslash in the work directory the pattern of the corpus files misses
    the corpus files; with a bracket, an asterisk or a question mark it
    matches the corpus files of another work directory, whose prefix does
    not start with the prefix of the group. *)
Lemma AllShardsGlob_special_characters :
  let corpus (workdir : string) :=
    CorpusFiles (WorkDir_of_values workdir "x" "1a2b" 0) in
  glob_match (ShardedFileInfo.AllShardsGlob (corpus "/w\x"))
    (ShardedFileInfo.ShardPath (corpus "/w\x") 0) = false
  /\ glob_match (ShardedFileInfo.AllShardsGlob (corpus "/w\x"))
       (ShardedFileInfo.ShardPath (corpus "/wx") 0) = true
  /\ glob_match (ShardedFileInfo.AllShardsGlob (corpus "/w[1]"))
       (ShardedFileInfo.ShardPath (corpus "/w1") 0) = true
  /\ glob_match (ShardedFileInfo.AllShardsGlob (corpus "/w*"))
       (ShardedFileInfo.ShardPath (corpus "/w2") 0) = true
  /\ glob_match (ShardedFileInfo.AllShardsGlob (corpus "/w?"))
       (ShardedFileInfo.ShardPath (corpus "/w2") 0) = true.
Proof. repeat split; reflexivity. Qed.

(** Inside one work directory whose binary name has no separator the
    groups are kept apart: the pattern of a group whose prefix has none of
    the four special characters matches no shard path of the other three
    groups. *)
Lemma AllShardsGlob_one_workdir
  (self : WorkDir) (i j : nat) (g h : ShardedFileInfo.t) (shard_index : N) :
  contains fs.sep (binary_name_ self) = false ->
  wildcard_free (ShardedFileInfo.prefix_ g) = true ->
  nth_error (sharded_file_groups self) i = Some g ->
  nth_error (sharded_file_groups self) j = Some h ->
  i <> j ->
  glob_match (ShardedFileInfo.AllShardsGlob g)
    (ShardedFileInfo.ShardPath h shard_index)
  = false.
Proof.
  intros Hname Hfree Hg Hh Hij.
  destruct (glob_match (ShardedFileInfo.AllShardsGlob g)
              (ShardedFileInfo.ShardPath h shard_index)) eqn:Hmatch;
    [exfalso | reflexivity].
  destruct (wildcard_free_tokens _ Hfree) as (Hb & He & Hplain).
  unfold glob_match in Hmatch.
  rewrite (AllShardsGlob_tokens g Hb He), Hplain, ShardPath_eq in Hmatch.
  apply match_tokens_literal in Hmatch as (r & Heq & Hr).
  symmetry in Heq. revert Heq.
  apply (groups_apart self i j); try assumption.
  apply digits_free; [reflexivity | apply padded_index_digits].
Qed.

(** The separator in the binary name matters: with the absolute binary name
    ["/corpus.x"] the corpus glob of a work directory matches one of its own
    distilled feature files. *)
Lemma AllShardsGlob_absolute_binary_name :
  let self :=
    WorkDir_of_values "/corpus.x-h/distilled-features-" "/corpus.x" "h" 0 in
  ShardedFileInfo.prefix_ (CorpusFiles self)
  <> ShardedFileInfo.prefix_ (DistilledFeaturesFiles self)
  /\ glob_match (ShardedFileInfo.AllShardsGlob (CorpusFiles self))
       (ShardedFileInfo.ShardPath (DistilledFeaturesFiles self) 1)
     = true.
Proof. split; [vm_compute; discriminate | reflexivity]. Qed.

(** ** More on decoding *)

Section DecodingMore.

Open Scope N_scope.

Lemma space_not_digit (s : string) :
  all_chars absl.ascii_isspace s = true -> all_chars is_digit s = true ->
  s = ""%string.
Proof.
  destruct s as [|c s]; [reflexivity|]. simpl. intros Hs Hd.
  apply andb_prop in Hs as [Hs _]. apply andb_prop in Hd as [Hd _].
  rewrite (digit_not_space c Hd) in Hs. discriminate.
Qed.

(** Digit strings of one length that denote the same number are equal. *)
Lemma digits_value_inj (a : string) :
  forall b : string,
    String.length a = String.length b ->
    all_chars is_digit a = true -> all_chars is_digit b = true ->
    digits_value a = digits_value b -> a = b.
Proof.
  induction a as [|c a IH]; intros [|d b] Hlen Ha Hb Hval;
    try discriminate; [reflexivity|].
  simpl in Hlen, Ha, Hb. injection Hlen as Hlen.
  apply andb_prop in Ha as [Hc Ha]. apply andb_prop in Hb as [Hd Hb].
  cbn [digits_value] in Hval. rewrite <- Hlen in Hval.
  pose proof (digits_value_lt a Ha) as Hla.
  pose proof (digits_value_lt b Hb) as Hlb. rewrite <- Hlen in Hlb.
  apply is_digit_code in Hc, Hd.
  assert (Hcd : N_of_ascii c = N_of_ascii d /\ digits_value a = digits_value b).
  { assert (Hx : N_of_ascii c = (N_of_ascii c - 48) + 48) by lia.
    assert (Hy : N_of_ascii d = (N_of_ascii d - 48) + 48) by lia.
    revert Hx Hy Hval.
    generalize (N_of_ascii c - 48), (N_of_ascii d - 48).
    generalize dependent (10 ^ N.of_nat (String.length a)).
    intros P Hla Hlb x y Hx Hy Hval.
    assert (x = y) by nia. subst y. split; [lia | nia]. }
  destruct Hcd as [Hcode Hrest]. f_equal.
  - rewrite <- (ascii_N_embedding c), <- (ascii_N_embedding d). now f_equal.
  - now apply IH.
Qed.

(** The text [SimpleAtoi] accepts is no longer than its digits make it. *)
Lemma SimpleAtoi_lt (s : string) (n : N) :
  absl.SimpleAtoi s = Some n -> n < 10 ^ N.of_nat (String.length s).
Proof.
  intros H. apply SimpleAtoi_spec in H
    as (ws1 & sign & ds & ws2 & -> & _ & _ & _ & _ & Hall & _ & ->).
  apply N.lt_le_trans with (1 := digits_value_lt ds Hall).
  apply N.pow_le_mono_r; [lia|]. rewrite !length_append. lia.
Qed.

Lemma SimpleAtoi_of_digits (s : string) (n : N) :
  absl.SimpleAtoi s = Some n -> all_chars is_digit s = true ->
  n = digits_value s.
Proof.
  intros H Hd. apply SimpleAtoi_spec in H
    as (ws1 & sign & ds & ws2 & -> & Hws1 & Hws2 & Hsign & _ & _ & _ & ->).
  rewrite !all_chars_append in Hd.
  apply andb_prop in Hd as [Hd1 Hd]. apply andb_prop in Hd as [Hd2 Hd].
  apply andb_prop in Hd as [_ Hd3].
  rewrite (space_not_digit ws1 Hws1 Hd1), (space_not_digit ws2 Hws2 Hd3).
  destruct Hsign as [-> | ->]; [|discriminate Hd2].
  now rewrite append_nil_r.
Qed.

Lemma rsplit_fst_last (x : ascii) (s : string) :
  fst (rsplit x s) = ""%string
  \/ exists a, fst (rsplit x s) = (a ++ String x "")%string.
Proof.
  induction s as [|c s IH]; [now left|]. simpl.
  destruct (rsplit x s) as [[|d0 d] f]; simpl in *.
  - destruct (is_char x c) eqn:E; [right | now left].
    apply Ascii.eqb_eq in E. subst c. now exists ""%string.
  - right. destruct IH as [IH | (a & IH)]; [discriminate|].
    exists (String c a). simpl. now rewrite IH.
Qed.

(** A file name is its stem followed by its extension, and an extension
    never stands alone. *)
Lemma split_extension_eq (f : string) :
  f = (fst (fs.split_extension f) ++ snd (fs.split_extension f))%string
  /\ (snd (fs.split_extension f) <> ""%string ->
      fst (fs.split_extension f) <> ""%string).
Proof.
  unfold fs.split_extension.
  destruct (_ || _); [now rewrite append_nil_r|].
  pose proof (rsplit_eq fs.dot f) as Hf.
  destruct (rsplit_fst_last fs.dot f) as [Hd | (a & Hd)];
    destruct (rsplit fs.dot f) as [d e]; simpl in Hd, Hf; subst d.
  - now rewrite append_nil_r.
  - destruct a as [|c a].
    + now rewrite append_nil_r.
    + change (String c a ++ String fs.dot "")%string
        with (String c (a ++ String fs.dot ""))%string.
      destruct (a ++ String fs.dot "")%string as [|c' d] eqn:Ea;
        [now destruct a|].
      rewrite <- Ea.
      change (String c (a ++ String fs.dot ""))%string
        with (String c a ++ String fs.dot "")%string.
      rewrite remove_last_snoc. cbn [fst snd]. split; [|discriminate].
      rewrite Hf at 1. now rewrite append_assoc.
Qed.

Lemma filename_stem_extension (p : string) :
  fs.filename p = (fs.stem p ++ fs.extension p)%string.
Proof. apply split_extension_eq. Qed.

End DecodingMore.

(** The stem and the extension of a file [a.e] placed in a directory. *)
Lemma file_parts_in_dir (dir a e : string) :
  contains fs.sep a = false -> contains fs.sep e = false ->
  contains fs.dot e = false -> a <> "" -> a <> "." ->
  fs.filename (with_separator dir ++ a ++ String fs.dot e)
  = a ++ String fs.dot e
  /\ fs.stem (with_separator dir ++ a ++ String fs.dot e) = a
  /\ fs.extension (with_separator dir ++ a ++ String fs.dot e)
     = String fs.dot e.
Proof.
  intros Ha He Hdot Hne Hne'.
  assert (Hname : fs.filename (with_separator dir ++ a ++ String fs.dot e)
                  = a ++ String fs.dot e).
  { unfold fs.filename. rewrite rsplit_with_separator; [reflexivity|].
    rewrite contains_append, Ha. simpl. exact He. }
  unfold fs.stem, fs.extension.
  rewrite Hname, split_extension_at_dot by assumption. repeat split.
Qed.

Lemma FromCorpusShardPath_stem (path binary_name binary_hash : string) :
  fs.stem path <> "corpus" ->
  FromCorpusShardPath path binary_name binary_hash
  = CheckFailure "stem == kCorpusShardStem" (VV "corpus_shard_path" path).
Proof.
  intros H. unfold FromCorpusShardPath, kCorpusShardStem.
  apply String.eqb_neq in H. now rewrite H.
Qed.

(** X1. A work directory that [FromCorpusShardPath] returns holds the
    parent of the path, the binary name and hash it was given, and a shard
    index below [10 ^ kDigitsInShardIndex]: it fits the fixed width again. *)
Theorem FromCorpusShardPath_decoded
  (path binary_name binary_hash : string) (decoded : WorkDir) :
  FromCorpusShardPath path binary_name binary_hash = Ok decoded ->
  decoded
  = WorkDir_of_values (fs.parent_path path) binary_name binary_hash
      (my_shard_index_ decoded)
  /\ (my_shard_index_ decoded < 10 ^ N.of_nat kDigitsInShardIndex)%N.
Proof.
  intros H.
  destruct (FromCorpusShardPath_result path binary_name binary_hash)
    as [(n & Hok & _ & _ & Hlen & Hn) | (condition & Hfail & _)];
    [|congruence].
  rewrite Hok in H. injection H as <-. split; [reflexivity|].
  cbn [my_shard_index_ WorkDir_of_values]. rewrite <- Hlen.
  now apply SimpleAtoi_lt.
Qed.

Lemma FromCorpusShardPath_decoded_witness :
  WorkDir_of_values "/srv/fuzz" "parser" "9f8e" 12
  = WorkDir_of_values (fs.parent_path "/srv/fuzz/corpus. +012 ") "parser" "9f8e"
      (my_shard_index_ (WorkDir_of_values "/srv/fuzz" "parser" "9f8e" 12))
  /\ (my_shard_index_ (WorkDir_of_values "/srv/fuzz" "parser" "9f8e" 12)
      < 10 ^ N.of_nat kDigitsInShardIndex)%N.
Proof.
  apply (FromCorpusShardPath_decoded "/srv/fuzz/corpus. +012 " "parser" "9f8e").
  reflexivity.
Defined.

(** X2. Decoding and encoding again. When [FromCorpusShardPath] accepts a
    path whose extension has digits only after its dot, the corpus file of
    the decoded work directory for its own shard is the file name of the
    path placed in the parent of the path. *)
Theorem MyShardPath_of_decoded
  (path binary_name binary_hash : string) (decoded : WorkDir) :
  FromCorpusShardPath path binary_name binary_hash = Ok decoded ->
  all_chars is_digit (substr1 (fs.extension path)) = true ->
  ShardedFileInfo.MyShardPath (CorpusFiles decoded)
  = fs.append (fs.parent_path path) (fs.filename path).
Proof.
  intros H Hdigits.
  destruct (FromCorpusShardPath_result path binary_name binary_hash)
    as [(n & Hok & Hstem & Hext & Hlen & Hn) | (condition & Hfail & _)];
    [|congruence].
  rewrite Hok in H. injection H as <-.
  destruct (extension_shape path) as [He | (e & He)]; [contradiction|].
  rewrite He in Hlen, Hn, Hdigits. cbn [substr1] in Hlen, Hn, Hdigits.
  assert (Hpad : padded_index n = e).
  { pose proof (SimpleAtoi_lt e n Hn) as Hlt. rewrite Hlen in Hlt.
    apply digits_value_inj.
    - rewrite padded_index_length; [now rewrite Hlen|].
      apply decimal_length_le; [unfold kDigitsInShardIndex; lia | exact Hlt].
    - apply padded_index_digits.
    - exact Hdigits.
    - rewrite padded_index_value. now apply SimpleAtoi_of_digits. }
  unfold ShardedFileInfo.MyShardPath.
  rewrite ShardPath_eq, CorpusFiles_prefix.
  cbn [CorpusFiles ShardedFileInfo.make ShardedFileInfo.my_shard_index_
       my_shard_index_ workdir_ WorkDir_of_values].
  rewrite filename_stem_extension, Hstem, He, Hpad, append_relative,
    append_assoc; reflexivity.
Qed.

Lemma MyShardPath_of_decoded_witness :
  ShardedFileInfo.MyShardPath
    (CorpusFiles (WorkDir_of_values "/srv//fuzz" "parser" "9f8e" 12))
  = fs.append (fs.parent_path "/srv//fuzz///corpus.000012")
      (fs.filename "/srv//fuzz///corpus.000012").
Proof.
  apply (MyShardPath_of_decoded "/srv//fuzz///corpus.000012" "parser" "9f8e"
           (WorkDir_of_values "/srv//fuzz" "parser" "9f8e" 12));
    reflexivity.
Defined.

(** X3. A corpus shard path made for a shard index of
    [10 ^ kDigitsInShardIndex] or more is never decoded:
    [FromCorpusShardPath] stops at its check of the width. *)
Theorem FromCorpusShardPath_over_width
  (self : WorkDir) (binary_name binary_hash : string) (shard_index : N) :
  (10 ^ N.of_nat kDigitsInShardIndex <= shard_index)%N ->
  FromCorpusShardPath
    (ShardedFileInfo.ShardPath (CorpusFiles self) shard_index)
    binary_name binary_hash
  = CheckFailure "ext.size() == kDigitsInShardIndex"
      (VV "corpus_shard_path"
         (ShardedFileInfo.ShardPath (CorpusFiles self) shard_index)).
Proof.
  intros Hover.
  pose proof (padded_index_digits shard_index) as Hdigits.
  assert (Hsep : contains fs.sep (padded_index shard_index) = false)
    by now apply digits_free.
  assert (Hdot : contains fs.dot (padded_index shard_index) = false)
    by now apply digits_free.
  destruct (corpus_file_parts (workdir_ self) _ Hsep Hdot)
    as (_ & Hstem & Hext).
  assert (Hlong : Nat.eqb (String.length (padded_index shard_index))
                    kDigitsInShardIndex = false).
  { apply Nat.eqb_neq. intros Hlen.
    unfold padded_index in Hlen. rewrite zero_pad_length in Hlen.
    assert (Hle : String.length (absl.decimal shard_index)
                  <= kDigitsInShardIndex) by lia.
    apply decimal_length_bound in Hle. lia. }
  rewrite ShardPath_eq, CorpusFiles_prefix, append_assoc.
  unfold FromCorpusShardPath, kCorpusShardStem.
  rewrite Hstem, Hext. cbn [String.eqb Ascii.eqb Bool.eqb CHECK bind substr1].
  change (is_char "." fs.dot) with true. cbn [CHECK bind].
  now rewrite Hlong.
Qed.

Lemma FromCorpusShardPath_over_width_witness :
  FromCorpusShardPath
    (ShardedFileInfo.ShardPath
       (CorpusFiles (WorkDir_of_values "/srv/fuzz" "parser" "9f8e" 0))
       12345678)
    "parser" "9f8e"
  = CheckFailure "ext.size() == kDigitsInShardIndex"
      (VV "corpus_shard_path"
         (ShardedFileInfo.ShardPath
            (CorpusFiles (WorkDir_of_values "/srv/fuzz" "parser" "9f8e" 0))
            12345678)).
Proof.
  apply (FromCorpusShardPath_over_width
           (WorkDir_of_values "/srv/fuzz" "parser" "9f8e" 0)
           "parser" "9f8e" 12345678).
  vm_compute. discriminate.
Defined.

(** X4. [FromCorpusShardPath] reads corpus files only: for a binary name
    without separator, it refuses every shard path of the distilled corpus,
    of the features and of the distilled features at its check of the
    stem. *)
Theorem FromCorpusShardPath_other_group
  (self : WorkDir) (g : ShardedFileInfo.t)
  (binary_name binary_hash : string) (shard_index : N) :
  contains fs.sep (binary_name_ self) = false ->
  In g [DistilledCorpusFiles self; FeaturesFiles self;
        DistilledFeaturesFiles self] ->
  FromCorpusShardPath (ShardedFileInfo.ShardPath g shard_index)
    binary_name binary_hash
  = CheckFailure "stem == kCorpusShardStem"
      (VV "corpus_shard_path" (ShardedFileInfo.ShardPath g shard_index)).
Proof.
  intros Hname Hg. apply FromCorpusShardPath_stem.
  destruct (groups_prefix self) as (_ & Hd & Hf & Hdf).
  pose proof (padded_index_digits shard_index) as Hdigits.
  assert (Hsep : contains fs.sep (padded_index shard_index) = false)
    by now apply digits_free.
  assert (Hdot : contains fs.dot (padded_index shard_index) = false)
    by now apply digits_free.
  rewrite ShardPath_eq.
  destruct Hg as [<- | [<- | [<- | []]]].
  - rewrite Hd.
    replace ((with_separator (workdir_ self)
              ++ "distilled-" ++ binary_name_ self ++ ".")
             ++ padded_index shard_index)
      with (with_separator (workdir_ self)
            ++ ("distilled-" ++ binary_name_ self)
            ++ String fs.dot (padded_index shard_index))
      by (now rewrite !append_assoc).
    destruct (file_parts_in_dir (workdir_ self)
                ("distilled-" ++ binary_name_ self)
                (padded_index shard_index)) as (_ & -> & _);
      try assumption; discriminate.
  - rewrite Hf, append_assoc.
    destruct (file_parts_in_dir (CoverageDirPath self) "features"
                (padded_index shard_index)) as (_ & Hstem & _);
      try assumption; try discriminate; try reflexivity.
    assert (Hs : fs.stem (with_separator (CoverageDirPath self)
                          ++ "features." ++ padded_index shard_index)
                 = "features") by exact Hstem.
    rewrite Hs. discriminate.
  - rewrite Hdf.
    replace ((with_separator (CoverageDirPath self)
              ++ "distilled-features-" ++ binary_name_ self ++ ".")
             ++ padded_index shard_index)
      with (with_separator (CoverageDirPath self)
            ++ ("distilled-features-" ++ binary_name_ self)
            ++ String fs.dot (padded_index shard_index))
      by (now rewrite !append_assoc).
    destruct (file_parts_in_dir (CoverageDirPath self)
                ("distilled-features-" ++ binary_name_ self)
                (padded_index shard_index)) as (_ & -> & _);
      try assumption; discriminate.
Qed.

Lemma FromCorpusShardPath_other_group_witness :
  FromCorpusShardPath
    (ShardedFileInfo.ShardPath
       (DistilledCorpusFiles (WorkDir_of_values "/srv/fuzz" "parser" "9f8e" 0))
       5)
    "parser" "9f8e"
  = CheckFailure "stem == kCorpusShardStem"
      (VV "corpus_shard_path"
         (ShardedFileInfo.ShardPath
            (DistilledCorpusFiles
               (WorkDir_of_values "/srv/fuzz" "parser" "9f8e" 0)) 5)).
Proof.
  apply (FromCorpusShardPath_other_group
           (WorkDir_of_values "/srv/fuzz" "parser" "9f8e" 0)
           (DistilledCorpusFiles
              (WorkDir_of_values "/srv/fuzz" "parser" "9f8e" 0))
           "parser" "9f8e" 5).
  - reflexivity.
  - left. reflexivity.
Defined.

(** ** Paths that never coincide *)

(** X5. The four groups of one work directory whose binary name has no
    separator never share a file: a shard path of one group differs from
    every shard path of another group, whatever the two shard indices. *)
Theorem ShardPath_groups_differ
  (self : WorkDir) (i j : nat) (g h : ShardedFileInfo.t) (a b : N) :
  contains fs.sep (binary_name_ self) = false ->
  nth_error (sharded_file_groups self) i = Some g ->
  nth_error (sharded_file_groups self) j = Some h ->
  i <> j ->
  ShardedFileInfo.ShardPath g a <> ShardedFileInfo.ShardPath h b.
Proof.
  intros Hname Hg Hh Hij. rewrite !ShardPath_eq.
  apply (groups_apart self i j); try assumption;
    (apply digits_free; [reflexivity | apply padded_index_digits]).
Qed.

Lemma ShardPath_groups_differ_witness :
  ShardedFileInfo.ShardPath
    (CorpusFiles (WorkDir_of_values "/srv/fuzz" "parser" "9f8e" 0)) 4
  <> ShardedFileInfo.ShardPath
       (DistilledCorpusFiles (WorkDir_of_values "/srv/fuzz" "parser" "9f8e" 0))
       4.
Proof.
  apply (ShardPath_groups_differ
           (WorkDir_of_values "/srv/fuzz" "parser" "9f8e" 0) 0 1
           (CorpusFiles (WorkDir_of_values "/srv/fuzz" "parser" "9f8e" 0))
           (DistilledCorpusFiles
              (WorkDir_of_values "/srv/fuzz" "parser" "9f8e" 0)) 4 4);
    try reflexivity.
  lia.
Defined.

Lemma digits_prefix_unique (d1 : string) :
  forall d2 r1 r2 : string,
    all_chars is_digit d1 = true -> all_chars is_digit d2 = true ->
    no_digit_head r1 = true -> no_digit_head r2 = true ->
    d1 ++ r1 = d2 ++ r2 -> d1 = d2.
Proof.
  induction d1 as [|c d1 IH]; intros [|c' d2] r1 r2 H1 H2 Hr1 Hr2 H;
    simpl in H, H1, H2; try reflexivity.
  - subst r1. simpl in Hr1. apply andb_prop in H2 as [H2 _].
    rewrite H2 in Hr1. discriminate.
  - subst r2. simpl in Hr2. apply andb_prop in H1 as [H1 _].
    rewrite H1 in Hr2. discriminate.
  - injection H as <- H. apply andb_prop in H1 as [_ H1].
    apply andb_prop in H2 as [_ H2]. f_equal. now apply (IH d2 r1 r2).
Qed.

Lemma report_paths_format
  (report : WorkDir -> string -> Checked string) (kind extension : string) :
  In (report, (kind, extension)) report_paths ->
  forall self annotation,
    report self annotation
    = (normalized <- NormalizeAnnotation annotation ;;
       Ok (fs.append (workdir_ self)
             (kind ++ binary_name_ self ++ "."
              ++ padded_index (my_shard_index_ self)
              ++ normalized ++ extension))).
Proof.
  intros Hin self annotation.
  destruct Hin as [H | [H | [H | [H | [H | []]]]]];
    injection H as <- <- <-;
    [ unfold CoverageReportPath | unfold CorpusStatsPath
    | unfold FuzzingStatsPath | unfold RUsageReportPath
    | unfold SourceBasedCoverageReportPath ];
    (destruct (NormalizeAnnotation annotation) as [normalized|];
     cbn [bind]; [|reflexivity]);
    do 2 f_equal; unfold padded_index;
    cbn [absl.StrFormat append]; rewrite ?append_nil_r; reflexivity.
Qed.

Lemma NormalizeAnnotation_head (annotation normalized extension : string) :
  NormalizeAnnotation annotation = Ok normalized ->
  no_digit_head extension = true ->
  no_digit_head (normalized ++ extension) = true.
Proof.
  destruct annotation as [|front rest]; simpl.
  - intros H. now injection H as <-.
  - destruct (is_char "." front); simpl; [discriminate|].
    intros H. now injection H as <-.
Qed.

(** X6. A report path names its shard: when two shards of one work
    directory and binary get the same path from one of the five report
    functions, under whatever annotations, they are the same shard. *)
Theorem report_path_names_shard
  (report : WorkDir -> string -> Checked string) (kind extension : string)
  (a b : WorkDir) (x y path : string) :
  In (report, (kind, extension)) report_paths ->
  workdir_ a = workdir_ b -> binary_name_ a = binary_name_ b ->
  report a x = Ok path -> report b y = Ok path ->
  my_shard_index_ a = my_shard_index_ b.
Proof.
  intros Hin Hdir Hname Ha Hb.
  rewrite (report_paths_format report kind extension Hin) in Ha, Hb.
  destruct (NormalizeAnnotation x) as [nx|] eqn:Hx; [|discriminate].
  destruct (NormalizeAnnotation y) as [ny|] eqn:Hy; [|discriminate].
  cbn [bind] in Ha, Hb. injection Ha as Ha. injection Hb as Hb.
  assert (Hext : no_digit_head extension = true).
  { destruct Hin as [H | [H | [H | [H | [H | []]]]]];
      injection H as _ _ <-; reflexivity. }
  assert (Hrel : forall rest, fs.is_absolute (kind ++ rest) = false).
  { intros rest. destruct Hin as [H | [H | [H | [H | [H | []]]]]];
      injection H as _ <- _; reflexivity. }
  rewrite append_relative in Ha, Hb by apply Hrel.
  rewrite <- Hb, <- Hdir, <- Hname in Ha.
  do 3 apply append_inv_head in Ha.
  change ("." ++ padded_index (my_shard_index_ a) ++ nx ++ extension)
    with (String "." (padded_index (my_shard_index_ a) ++ nx ++ extension))
    in Ha.
  change ("." ++ padded_index (my_shard_index_ b) ++ ny ++ extension)
    with (String "." (padded_index (my_shard_index_ b) ++ ny ++ extension))
    in Ha.
  injection Ha as Ha.
  apply padded_index_inj.
  apply (digits_prefix_unique _ _ (nx ++ extension) (ny ++ extension));
    try apply padded_index_digits; try assumption.
  - now apply (NormalizeAnnotation_head x).
  - now apply (NormalizeAnnotation_head y).
Qed.

Lemma report_path_names_shard_witness :
  my_shard_index_ (WorkDir_of_values "/srv/fuzz" "parser" "9f8e" 3)
  = my_shard_index_ (WorkDir_of_values "/srv/fuzz" "parser" "0a1b" 3).
Proof.
  apply (report_path_names_shard CorpusStatsPath "corpus-stats-" ".json"
           (WorkDir_of_values "/srv/fuzz" "parser" "9f8e" 3)
           (WorkDir_of_values "/srv/fuzz" "parser" "0a1b" 3)
           "nightly" "nightly"
           "/srv/fuzz/corpus-stats-parser.000003.nightly.json");
    try reflexivity.
  right. left. reflexivity.
Defined.

(** ** The layout on disk *)

Lemma filename_append (p f : string) :
  contains fs.sep f = false -> fs.filename (fs.append p f) = f.
Proof.
  intros Hf. rewrite append_relative by now apply relative_of_free.
  unfold fs.filename. now rewrite rsplit_with_separator.
Qed.

Lemma extension_append (p f : string) :
  contains fs.sep f = false ->
  fs.extension (fs.append p f) = snd (fs.split_extension f).
Proof. intros Hf. unfold fs.extension. now rewrite filename_append. Qed.

(** As [split_extension_at_dot], for an extension that has more than its
    dot. *)
Lemma split_extension_at_last_dot (a e : string) :
  a <> "" -> e <> "" -> contains fs.dot e = false ->
  fs.split_extension (a ++ String fs.dot e) = (a, String fs.dot e).
Proof.
  intros Ha He Hdot.
  destruct (String.eqb_spec a ".") as [-> | Hne];
    [|now apply split_extension_at_dot].
  unfold fs.split_extension.
  change ("." ++ String fs.dot e) with (".." ++ e).
  destruct e as [|c e]; [contradiction|].
  cbn [append String.eqb Ascii.eqb Bool.eqb orb].
  change (String "." (String "." (String c e)))
    with ("." ++ String fs.dot (String c e)).
  rewrite rsplit_at_last by exact Hdot. reflexivity.
Qed.

(** The names with the extension [.profraw]. *)
Lemma extension_profraw (f : string) :
  snd (fs.split_extension f) = ".profraw"
  <-> exists a, a <> "" /\ f = a ++ ".profraw".
Proof.
  split.
  - intros H. destruct (split_extension_eq f) as [Hf Hne].
    exists (fst (fs.split_extension f)). rewrite H in Hf, Hne.
    split; [apply Hne; discriminate | exact Hf].
  - intros (a & Ha & ->).
    change (a ++ ".profraw") with (a ++ String fs.dot "profraw").
    now rewrite split_extension_at_last_dot.
Qed.

Lemma EnumerateRawCoverageProfiles_returned
  (disk : FileSystem) (self : WorkDir) (profiles : list string) :
  snd (EnumerateRawCoverageProfiles disk self) = Returned profiles ->
  profiles = []
  \/ profiles
     = map (fun e => fs.append (CoverageDirPath self) (fst e))
         (filter (is_raw_profile (CoverageDirPath self))
            (listed (disk (CoverageDirPath self)))).
Proof.
  unfold EnumerateRawCoverageProfiles, directory_iterator.
  destruct (disk (CoverageDirPath self)) as [|dir_error|name status next] eqn:E;
    cbn [snd]; rewrite ?EnumerateRawCoverageProfiles_loop_spec.
  - intros H. injection H as <-. now left.
  - intros H. injection H as <-. now left.
  - destruct (first_failure (read_entry name status next)); [discriminate|].
    intros H. injection H as <-. now right.
Qed.

Lemma EnumerateRawCoverageProfiles_listing
  (disk : FileSystem) (self : WorkDir) :
  first_failure (disk (CoverageDirPath self)) = None ->
  snd (EnumerateRawCoverageProfiles disk self)
  = Returned
      (map (fun e => fs.append (CoverageDirPath self) (fst e))
         (filter (is_raw_profile (CoverageDirPath self))
            (listed (disk (CoverageDirPath self))))).
Proof.
  intros Hok. unfold EnumerateRawCoverageProfiles, directory_iterator.
  destruct (disk (CoverageDirPath self)) as [|dir_error|name status next] eqn:E;
    [reflexivity | discriminate |].
  cbn [snd]. now rewrite EnumerateRawCoverageProfiles_loop_spec, Hok.
Qed.

(** X7. Which entries the enumeration returns, by name. When every read of
    the coverage directory and the status query of every entry succeed (the
    entries being names without separator), [EnumerateRawCoverageProfiles]
    returns the paths [CoverageDirPath()/name] of the regular files whose
    name is [.profraw] after a text that is not empty; a file named just
    [.profraw] is left out. *)
Theorem EnumerateRawCoverageProfiles_by_name
  (disk : FileSystem) (self : WorkDir) :
  first_failure (disk (CoverageDirPath self)) = None ->
  Forall (fun e => contains fs.sep (fst e) = false)
    (listed (disk (CoverageDirPath self))) ->
  exists profiles,
    snd (EnumerateRawCoverageProfiles disk self) = Returned profiles
    /\ forall profile,
        In profile profiles
        <-> exists a,
            a <> ""
            /\ In (a ++ ".profraw", Returned true)
                 (listed (disk (CoverageDirPath self)))
            /\ profile = fs.append (CoverageDirPath self) (a ++ ".profraw").
Proof.
  intros Hok Hnames. eexists. split.
  - now apply EnumerateRawCoverageProfiles_listing.
  - intros profile. rewrite in_map_iff. rewrite Forall_forall in Hnames. split.
    + intros ([name status] & <- & Hin).
      apply filter_In in Hin as [Hin Hkeep].
      unfold is_raw_profile in Hkeep. cbn [fst snd] in Hkeep |- *.
      destruct status as [regular | what]; [|discriminate].
      apply andb_prop in Hkeep as [-> Hext]. apply String.eqb_eq in Hext.
      rewrite extension_append in Hext by exact (Hnames _ Hin).
      apply extension_profraw in Hext as (a & Ha & ->). now exists a.
    + intros (a & Ha & Hin & ->). exists (a ++ ".profraw", Returned true).
      split; [reflexivity|]. apply filter_In. split; [exact Hin|].
      unfold is_raw_profile. cbn [fst snd andb]. apply String.eqb_eq.
      rewrite extension_append by exact (Hnames _ Hin).
      apply extension_profraw. now exists a.
Qed.

Lemma EnumerateRawCoverageProfiles_by_name_witness :
  let disk : FileSystem :=
    fun _ =>
      read_entry ".profraw" (Returned true)
        (read_entry "a.profraw" (Returned true)
           (read_entry "b.profraw" (Returned false)
              (read_entry "features.000000" (Returned true)
                 end_of_directory))) in
  let self := WorkDir_of_values "/srv/fuzz" "parser" "9f8e" 0 in
  exists profiles,
    snd (EnumerateRawCoverageProfiles disk self) = Returned profiles
    /\ forall profile,
        In profile profiles
        <-> exists a,
            a <> ""
            /\ In (a ++ ".profraw", Returned true)
                 (listed (disk (CoverageDirPath self)))
            /\ profile = fs.append (CoverageDirPath self) (a ++ ".profraw").
Proof.
  apply (EnumerateRawCoverageProfiles_by_name
           (fun _ =>
              read_entry ".profraw" (Returned true)
                (read_entry "a.profraw" (Returned true)
                   (read_entry "b.profraw" (Returned false)
                      (read_entry "features.000000" (Returned true)
                         end_of_directory))))
           (WorkDir_of_values "/srv/fuzz" "parser" "9f8e" 0)).
  - reflexivity.
  - repeat constructor.
Defined.

Lemma EnumerateRawCoverageProfiles_extension
  (disk : FileSystem) (self : WorkDir) (profiles : list string)
  (profile : string) :
  snd (EnumerateRawCoverageProfiles disk self) = Returned profiles ->
  In profile profiles ->
  fs.extension profile = ".profraw".
Proof.
  intros H.
  destruct (EnumerateRawCoverageProfiles_returned disk self profiles H)
    as [-> | ->]; [intros []|].
  rewrite in_map_iff. intros ([name status] & <- & Hin).
  apply filter_In in Hin as [_ Hkeep]. unfold is_raw_profile in Hkeep.
  cbn [fst snd] in Hkeep |- *. destruct status; [|discriminate].
  apply andb_prop in Hkeep as [_ Hext]. now apply String.eqb_eq.
Qed.

(** X8. What the enumeration never returns, whatever the file system
    holds: the indexed profile, the directory of binary information, and
    the features file of any shard. *)
Theorem EnumerateRawCoverageProfiles_leaves_out
  (disk : FileSystem) (self : WorkDir) (profiles : list string) :
  snd (EnumerateRawCoverageProfiles disk self) = Returned profiles ->
  ~ In (SourceBasedCoverageIndexedProfilePath self) profiles
  /\ ~ In (BinaryInfoDirPath self) profiles
  /\ forall shard_index,
      ~ In (ShardedFileInfo.ShardPath (FeaturesFiles self) shard_index)
          profiles.
Proof.
  intros Hreturned.
  pose proof (EnumerateRawCoverageProfiles_extension disk self profiles)
    as Hextension.
  repeat split.
  - intros H. apply Hextension in H; [|exact Hreturned].
    unfold SourceBasedCoverageIndexedProfilePath in H.
    rewrite extension_append in H by reflexivity. discriminate H.
  - intros H. apply Hextension in H; [|exact Hreturned].
    unfold BinaryInfoDirPath in H.
    rewrite extension_append in H by reflexivity. discriminate H.
  - intros shard_index H. apply Hextension in H; [|exact Hreturned].
    pose proof (padded_index_digits shard_index) as Hdigits.
    assert (Hsep : contains fs.sep (padded_index shard_index) = false)
      by now apply digits_free.
    assert (Hdot : contains fs.dot (padded_index shard_index) = false)
      by now apply digits_free.
    destruct (groups_prefix self) as (_ & _ & Hf & _).
    rewrite ShardPath_eq, Hf, append_assoc in H.
    destruct (file_parts_in_dir (CoverageDirPath self) "features"
                (padded_index shard_index)) as (_ & _ & Hext);
      try assumption; try discriminate; try reflexivity.
    assert (He : fs.extension (with_separator (CoverageDirPath self)
                                ++ "features." ++ padded_index shard_index)
                 = String "." (padded_index shard_index)) by exact Hext.
    rewrite He in H. injection H as H. rewrite H in Hdigits.
    discriminate Hdigits.
Qed.

Lemma EnumerateRawCoverageProfiles_leaves_out_witness :
  let self := WorkDir_of_values "/srv/fuzz" "parser" "9f8e" 0 in
  let profiles := ["/srv/fuzz/parser-9f8e/a.profraw"] in
  ~ In (SourceBasedCoverageIndexedProfilePath self) profiles
  /\ ~ In (BinaryInfoDirPath self) profiles
  /\ forall shard_index,
      ~ In (ShardedFileInfo.ShardPath (FeaturesFiles self) shard_index)
          profiles.
Proof.
  apply (EnumerateRawCoverageProfiles_leaves_out
           (fun _ =>
              read_entry "clang_coverage.profdata" (Returned true)
                (read_entry "a.profraw" (Returned true)
                   (read_entry "features.000000" (Returned true)
                      end_of_directory)))
           (WorkDir_of_values "/srv/fuzz" "parser" "9f8e" 0)).
  reflexivity.
Defined.

Lemma ShardPath_make (base_dir rel_prefix : string) (own shard_index : N) :
  fs.is_absolute rel_prefix = false ->
  ShardedFileInfo.ShardPath
    (ShardedFileInfo.make base_dir rel_prefix own) shard_index
  = fs.append base_dir (rel_prefix ++ padded_index shard_index).
Proof.
  intros Hrel. rewrite ShardPath_eq. cbn [ShardedFileInfo.make
                                          ShardedFileInfo.prefix_].
  rewrite !append_relative, ?append_assoc; [reflexivity | | exact Hrel].
  destruct rel_prefix; [|exact Hrel].
  apply relative_of_free, digits_free;
    [reflexivity | apply padded_index_digits].
Qed.

Lemma padded_index_free (shard_index : N) :
  contains fs.sep (padded_index shard_index) = false.
Proof. apply digits_free; [reflexivity | apply padded_index_digits]. Qed.

(** X9. The files of the coverage directory lie directly inside it. When
    [CoverageDirPath()] does not end with a separator, it is the parent of
    the directory of binary information, of every features file, of the raw
    profile path and of the indexed profile path. *)
Theorem coverage_dir_children (self : WorkDir) (shard_index : N) :
  fs.has_filename (CoverageDirPath self) = true ->
  fs.parent_path (BinaryInfoDirPath self) = CoverageDirPath self
  /\ fs.parent_path
       (ShardedFileInfo.ShardPath (FeaturesFiles self) shard_index)
     = CoverageDirPath self
  /\ fs.parent_path (SourceBasedCoverageRawProfilePath self)
     = CoverageDirPath self
  /\ fs.parent_path (SourceBasedCoverageIndexedProfilePath self)
     = CoverageDirPath self.
Proof.
  intros Hdir.
  assert (Hparent : forall f,
             contains fs.sep f = false -> f <> "" ->
             fs.parent_path (fs.append (CoverageDirPath self) f)
             = CoverageDirPath self).
  { intros f Hf Hne. apply parent_path_append; auto. }
  repeat split.
  - apply Hparent; [reflexivity | discriminate].
  - unfold FeaturesFiles. rewrite ShardPath_make by reflexivity.
    apply Hparent; [apply padded_index_free | discriminate].
  - unfold SourceBasedCoverageRawProfilePath.
    apply Hparent; [|discriminate].
    cbn [absl.StrFormat append contains].
    fold (padded_index (my_shard_index_ self)).
    rewrite contains_append, padded_index_free. reflexivity.
  - apply Hparent; [reflexivity | discriminate].
Qed.

Lemma coverage_dir_children_witness :
  let self := WorkDir_of_values "/srv/fuzz" "parser" "9f8e" 2 in
  fs.parent_path (BinaryInfoDirPath self) = CoverageDirPath self
  /\ fs.parent_path (ShardedFileInfo.ShardPath (FeaturesFiles self) 7)
     = CoverageDirPath self
  /\ fs.parent_path (SourceBasedCoverageRawProfilePath self)
     = CoverageDirPath self
  /\ fs.parent_path (SourceBasedCoverageIndexedProfilePath self)
     = CoverageDirPath self.
Proof.
  apply (coverage_dir_children
           (WorkDir_of_values "/srv/fuzz" "parser" "9f8e" 2) 7).
  reflexivity.
Defined.

(** X10. The files of the work directory lie directly inside it. For a
    working directory that is empty, is ["/"], or does not end with a
    separator, and a binary name without separator, the working directory
    is the parent of the crash directory, of every corpus and distilled
    corpus file, of the coverage directory when the binary hash has no
    separator either, and of every report path whose annotation has no
    separator. *)
Theorem workdir_children (self : WorkDir) (shard_index : N) :
  workdir_ self = "" \/ workdir_ self = "/"
  \/ fs.has_filename (workdir_ self) = true ->
  contains fs.sep (binary_name_ self) = false ->
  fs.parent_path (CrashReproducerDirPath self) = workdir_ self
  /\ fs.parent_path (ShardedFileInfo.ShardPath (CorpusFiles self) shard_index)
     = workdir_ self
  /\ fs.parent_path
       (ShardedFileInfo.ShardPath (DistilledCorpusFiles self) shard_index)
     = workdir_ self
  /\ (contains fs.sep (binary_hash_ self) = false ->
      fs.parent_path (CoverageDirPath self) = workdir_ self)
  /\ (forall report kind extension annotation path,
         In (report, (kind, extension)) report_paths ->
         contains fs.sep annotation = false ->
         report self annotation = Ok path ->
         fs.parent_path path = workdir_ self).
Proof.
  intros Hdir Hname.
  assert (Hparent : forall f,
             contains fs.sep f = false -> f <> "" ->
             fs.parent_path (fs.append (workdir_ self) f) = workdir_ self).
  { intros f Hf Hne. now apply parent_path_append. }
  repeat split.
  - apply Hparent; [reflexivity | discriminate].
  - unfold CorpusFiles. rewrite ShardPath_make by reflexivity.
    apply Hparent; [apply padded_index_free | discriminate].
  - unfold DistilledCorpusFiles. rewrite ShardPath_make by reflexivity.
    apply Hparent; [|discriminate].
    unfold absl.StrCat. cbn [fold_right].
    rewrite !contains_append, Hname, padded_index_free. reflexivity.
  - intros Hhash. apply Hparent.
    + unfold absl.StrCat. cbn [fold_right].
      rewrite !contains_append, Hname, Hhash. reflexivity.
    + unfold absl.StrCat. cbn [fold_right].
      destruct (binary_name_ self); discriminate.
  - intros report kind extension annotation path Hin Hann Hpath.
    rewrite (report_paths_format report kind extension Hin) in Hpath.
    assert (Hnorm : forall normalized,
               NormalizeAnnotation annotation = Ok normalized ->
               contains fs.sep normalized = false).
    { intros normalized. destruct annotation as [|front rest]; simpl.
      - intros H. now injection H as <-.
      - destruct (is_char "." front); simpl; [discriminate|].
        intros H. injection H as <-. rewrite append_nil_r. exact Hann. }
    destruct (NormalizeAnnotation annotation) as [normalized|];
      [|discriminate].
    cbn [bind] in Hpath. injection Hpath as <-.
    apply Hparent.
    + rewrite !contains_append, Hname. cbn [contains].
      rewrite !contains_append, padded_index_free, (Hnorm normalized eq_refl).
      destruct Hin as [H | [H | [H | [H | [H | []]]]]];
        injection H as _ <- <-; reflexivity.
    + destruct Hin as [H | [H | [H | [H | [H | []]]]]];
        injection H as _ <- _; discriminate.
Qed.

Lemma workdir_children_witness :
  let self := WorkDir_of_values "/srv/fuzz" "parser" "9f8e" 2 in
  fs.parent_path (CrashReproducerDirPath self) = workdir_ self
  /\ fs.parent_path (ShardedFileInfo.ShardPath (CorpusFiles self) 7)
     = workdir_ self
  /\ fs.parent_path (ShardedFileInfo.ShardPath (DistilledCorpusFiles self) 7)
     = workdir_ self
  /\ (contains fs.sep (binary_hash_ self) = false ->
      fs.parent_path (CoverageDirPath self) = workdir_ self)
  /\ (forall report kind extension annotation path,
         In (report, (kind, extension)) report_paths ->
         contains fs.sep annotation = false ->
         report self annotation = Ok path ->
         fs.parent_path path = workdir_ self).
Proof.
  apply (workdir_children
           (WorkDir_of_values "/srv/fuzz" "parser" "9f8e" 2) 7).
  - right. right. reflexivity.
  - reflexivity.
Defined.

(** ** [InplaceVector] *)

Section InplaceVectorProperties.

Local Open Scope nat_scope.
Local Open Scope list_scope.

Variable T : Type.

Lemma firstn_app_exact (A : Type) (k : nat) (a b : list A) :
  List.length a = k -> firstn k (a ++ b) = a.
Proof.
  intros <-. rewrite firstn_app, firstn_all, Nat.sub_diag. simpl.
  apply app_nil_r.
Qed.

Lemma skipn_app_exact (A : Type) (k : nat) (a b : list A) :
  List.length a = k -> skipn k (a ++ b) = b.
Proof.
  intros <-. rewrite skipn_app, skipn_all, Nat.sub_diag. reflexivity.
Qed.

Lemma seq_add (k : nat) :
  forall start len, map (fun j => j + k) (seq start len) = seq (start + k) len.
Proof.
  intros start len. revert start.
  induction len as [|len IH]; intros start; simpl; [reflexivity|].
  now rewrite IH.
Qed.

(** The prefix of [k] elements and the rest of the elements of a memory. *)
Lemma elements_split (memory : nat -> T) (k n : nat) :
  k <= n ->
  firstn k (map memory (seq 0 n)) = map memory (seq 0 k)
  /\ skipn k (map memory (seq 0 n)) = map memory (seq k (n - k)).
Proof.
  intros Hk. replace n with (k + (n - k)) at 1 2 by lia.
  rewrite seq_app, map_app. split.
  - apply firstn_app_exact. now rewrite length_map, length_seq.
  - apply skipn_app_exact. now rewrite length_map, length_seq.
Qed.

Lemma insert_loop_spec (index n : nat) :
  forall (memory : nat -> T) (j : nat),
    InplaceVector.insert_loop memory index n j
    = if (index <? j) && (j <=? index + n) then memory (j - 1) else memory j.
Proof.
  induction n as [|n IH]; intros memory j; simpl.
  - destruct (Nat.ltb_spec index j), (Nat.leb_spec j (index + 0));
      simpl; try reflexivity; lia.
  - rewrite IH. unfold InplaceVector.store.
    destruct (Nat.ltb_spec index j), (Nat.leb_spec j (index + n)),
      (Nat.leb_spec j (index + S n)), (Nat.eqb_spec (j - 1) (index + S n)),
      (Nat.eqb_spec j (index + S n)); simpl; try reflexivity; try lia.
    f_equal. lia.
Qed.

Lemma erase_loop_spec (n : nat) :
  forall (memory : nat -> T) (itr j : nat),
    InplaceVector.erase_loop memory itr n j
    = if (itr <=? j) && (j <? itr + n) then memory (S j) else memory j.
Proof.
  induction n as [|n IH]; intros memory itr j; simpl.
  - destruct (Nat.leb_spec itr j), (Nat.ltb_spec j (itr + 0));
      simpl; try reflexivity; lia.
  - rewrite IH. unfold InplaceVector.store.
    destruct (Nat.leb_spec (S itr) j), (Nat.ltb_spec j (S itr + n)),
      (Nat.leb_spec itr j), (Nat.ltb_spec j (itr + S n)),
      (Nat.eqb_spec (S j) itr), (Nat.eqb_spec j itr);
      simpl; try reflexivity; try lia.
    now subst j.
Qed.

Lemma erase_range_loop_spec (n : nat) :
  forall (memory : nat -> T) (itr jtr j : nat),
    itr <= jtr ->
    InplaceVector.erase_range_loop memory itr jtr n j
    = if (itr <=? j) && (j <? itr + n)
      then memory (j + (jtr - itr)) else memory j.
Proof.
  induction n as [|n IH]; intros memory itr jtr j Hle; simpl.
  - destruct (Nat.leb_spec itr j), (Nat.ltb_spec j (itr + 0));
      simpl; try reflexivity; lia.
  - rewrite IH by lia. unfold InplaceVector.store.
    replace (S jtr - S itr) with (jtr - itr) by lia.
    destruct (Nat.leb_spec (S itr) j), (Nat.ltb_spec j (S itr + n)),
      (Nat.leb_spec itr j), (Nat.ltb_spec j (itr + S n)),
      (Nat.eqb_spec (j + (jtr - itr)) itr), (Nat.eqb_spec j itr);
      simpl; try reflexivity; try lia; subst; f_equal; lia.
Qed.

Lemma size_after_insert (size : N) :
  (size + 1 < 2 ^ 64)%N -> ((size + 1) mod 2 ^ 64 = size + 1)%N.
Proof. intros H. now apply N.mod_small. Qed.

Lemma size_after_erase (size : N) :
  (0 < size < 2 ^ 64)%N -> ((size + (2 ^ 64 - 1)) mod 2 ^ 64 = size - 1)%N.
Proof.
  intros H.
  replace (size + (2 ^ 64 - 1))%N with (size - 1 + 1 * 2 ^ 64)%N by lia.
  rewrite N.Div0.mod_add. apply N.mod_small. lia.
Qed.

Lemma insert_elements (self : InplaceVector.t T) (index : nat) (val : T) :
  (InplaceVector.size_ self + 1 < 2 ^ 64)%N -> index <= N.to_nat (InplaceVector.size_ self) ->
  InplaceVector.elements (InplaceVector.insert self index val)
  = (firstn index (InplaceVector.elements self) ++ val :: skipn index (InplaceVector.elements self))%list.
Proof.
  intros Hsize Hindex. unfold InplaceVector.elements, InplaceVector.insert.
  cbn [InplaceVector.data_ InplaceVector.size_].
  rewrite (size_after_insert _ Hsize).
  set (n := N.to_nat (InplaceVector.size_ self)) in *.
  replace (N.to_nat (InplaceVector.size_ self + 1)) with (index + (1 + (n - index)))
    by (unfold n; lia).
  destruct (elements_split (InplaceVector.data_ self) index n Hindex) as [-> ->].
  rewrite !seq_app, !map_app. cbn [seq map Nat.add app].
  rewrite Nat.add_1_r, <- seq_shift, map_map. f_equal; [|f_equal].
  - apply map_ext_in. intros j Hj. apply in_seq in Hj.
    unfold InplaceVector.store. rewrite insert_loop_spec.
    destruct (Nat.eqb_spec j index), (Nat.ltb_spec index j);
      simpl; try reflexivity; lia.
  - unfold InplaceVector.store. now rewrite Nat.eqb_refl.
  - apply map_ext_in. intros j Hj. apply in_seq in Hj.
    unfold InplaceVector.store. rewrite insert_loop_spec.
    destruct (Nat.eqb_spec (S j) index), (Nat.ltb_spec index (S j)),
      (Nat.leb_spec (S j) (index + (n - index)));
      simpl; try lia. f_equal. lia.
Qed.

Lemma erase_elements (self : InplaceVector.t T) (index : nat) :
  (InplaceVector.size_ self < 2 ^ 64)%N -> index < N.to_nat (InplaceVector.size_ self) ->
  InplaceVector.elements (InplaceVector.erase self index)
  = (firstn index (InplaceVector.elements self) ++ skipn (S index) (InplaceVector.elements self))%list.
Proof.
  intros Hsize Hindex. unfold InplaceVector.elements, InplaceVector.erase.
  cbn [InplaceVector.data_ InplaceVector.size_].
  rewrite size_after_erase by lia.
  set (n := N.to_nat (InplaceVector.size_ self)) in *.
  replace (N.to_nat (InplaceVector.size_ self - 1)) with (index + (n - 1 - index))
    by (unfold n; lia).
  destruct (elements_split (InplaceVector.data_ self) index n) as [-> _]; [lia|].
  destruct (elements_split (InplaceVector.data_ self) (S index) n) as [_ ->]; [lia|].
  rewrite seq_app, map_app. cbn [Nat.add].
  replace (n - S index) with (n - 1 - index) by lia.
  rewrite <- (seq_shift (n - 1 - index) index), map_map. f_equal.
  - apply map_ext_in. intros j Hj. apply in_seq in Hj.
    rewrite erase_loop_spec.
    destruct (Nat.leb_spec index j); simpl; [lia | reflexivity].
  - apply map_ext_in. intros j Hj. apply in_seq in Hj.
    rewrite erase_loop_spec.
    destruct (Nat.leb_spec index j), (Nat.ltb_spec j (index + (n - 1 - index)));
      simpl; try reflexivity; lia.
Qed.

End InplaceVectorProperties.

Section InplaceVectorOperations.

Local Open Scope nat_scope.
Local Open Scope list_scope.

Variable T : Type.

(** X11. [InplaceVector::insert] is insertion into the sequence of
    elements. For an offset [index] of at most [size()] (and no overflow of
    the size), the elements afterwards are the first [index] elements, then
    [val], then the other elements; the size grows by one; the memory in
    front of [index] and behind the new last element is not written. *)
Theorem InplaceVector_insert
  (self : InplaceVector.t T) (index : nat) (val : T) :
  (InplaceVector.size_ self + 1 < 2 ^ 64)%N ->
  index <= N.to_nat (InplaceVector.size_ self) ->
  InplaceVector.elements (InplaceVector.insert self index val)
  = firstn index (InplaceVector.elements self)
    ++ val :: skipn index (InplaceVector.elements self)
  /\ InplaceVector.size_ (InplaceVector.insert self index val)
     = (InplaceVector.size_ self + 1)%N
  /\ forall offset,
      offset < index \/ N.to_nat (InplaceVector.size_ self) < offset ->
      InplaceVector.data_ (InplaceVector.insert self index val) offset
      = InplaceVector.data_ self offset.
Proof.
  intros Hsize Hindex. split; [now apply insert_elements | split].
  - now apply size_after_insert.
  - intros offset Hout. unfold InplaceVector.insert.
    cbn [InplaceVector.data_]. unfold InplaceVector.store.
    rewrite insert_loop_spec.
    destruct (Nat.eqb_spec offset index), (Nat.ltb_spec index offset),
      (Nat.leb_spec offset
         (index + (N.to_nat (InplaceVector.size_ self) - index)));
      simpl; try reflexivity; lia.
Qed.

(** X12. [InplaceVector::erase(index)] removes one element. For an offset
    [index] below [size()], the elements afterwards are the elements without
    the one at [index]; the size shrinks by one; the memory in front of
    [index] and from the old last element on is not written. *)
Theorem InplaceVector_erase (self : InplaceVector.t T) (index : nat) :
  (InplaceVector.size_ self < 2 ^ 64)%N ->
  index < N.to_nat (InplaceVector.size_ self) ->
  InplaceVector.elements (InplaceVector.erase self index)
  = firstn index (InplaceVector.elements self)
    ++ skipn (S index) (InplaceVector.elements self)
  /\ InplaceVector.size_ (InplaceVector.erase self index)
     = (InplaceVector.size_ self - 1)%N
  /\ forall offset,
      offset < index \/ N.to_nat (InplaceVector.size_ self) - 1 <= offset ->
      InplaceVector.data_ (InplaceVector.erase self index) offset
      = InplaceVector.data_ self offset.
Proof.
  intros Hsize Hindex. split; [now apply erase_elements | split].
  - apply size_after_erase. lia.
  - intros offset Hout. unfold InplaceVector.erase.
    cbn [InplaceVector.data_]. rewrite erase_loop_spec.
    destruct (Nat.leb_spec index offset),
      (Nat.ltb_spec offset
         (index + (N.to_nat (InplaceVector.size_ self) - 1 - index)));
      simpl; try reflexivity; lia.
Qed.

(** X13. [InplaceVector::erase(begin, end)] removes a range. For offsets
    [begin <= end <= size()], the elements afterwards are the first [begin]
    elements followed by the elements from [end] on; the size shrinks by
    [end - begin]; the memory in front of [begin] and behind the new last
    element is not written. *)
Theorem InplaceVector_erase_range
  (self : InplaceVector.t T) (begin end_ : nat) :
  (InplaceVector.size_ self < 2 ^ 64)%N ->
  begin <= end_ -> end_ <= N.to_nat (InplaceVector.size_ self) ->
  InplaceVector.elements (InplaceVector.erase_range self begin end_)
  = firstn begin (InplaceVector.elements self)
    ++ skipn end_ (InplaceVector.elements self)
  /\ InplaceVector.size_ (InplaceVector.erase_range self begin end_)
     = (InplaceVector.size_ self - N.of_nat (end_ - begin))%N
  /\ forall offset,
      offset < begin
      \/ begin + (N.to_nat (InplaceVector.size_ self) - end_) <= offset ->
      InplaceVector.data_ (InplaceVector.erase_range self begin end_) offset
      = InplaceVector.data_ self offset.
Proof.
  intros Hsize Hbegin Hend.
  assert (Hnew : InplaceVector.size_ (InplaceVector.erase_range self begin end_)
                 = (InplaceVector.size_ self - N.of_nat (end_ - begin))%N).
  { unfold InplaceVector.erase_range. cbn [InplaceVector.size_].
    rewrite Z.mod_small by lia. lia. }
  split; [|split; [exact Hnew|]].
  - unfold InplaceVector.elements at 1. rewrite Hnew.
    unfold InplaceVector.erase_range, InplaceVector.elements.
    cbn [InplaceVector.data_].
    set (n := N.to_nat (InplaceVector.size_ self)) in *.
    replace (N.to_nat (InplaceVector.size_ self - N.of_nat (end_ - begin)))
      with (begin + (n - end_)) by (unfold n; lia).
    destruct (elements_split T (InplaceVector.data_ self) begin n) as [-> _];
      [lia|].
    destruct (elements_split T (InplaceVector.data_ self) end_ n) as [_ ->];
      [lia|].
    rewrite seq_app, map_app. cbn [Nat.add].
    replace (seq end_ (n - end_))
      with (map (fun j => j + (end_ - begin)) (seq begin (n - end_)))
      by (rewrite seq_add; f_equal; lia).
    rewrite map_map. f_equal.
    + apply map_ext_in. intros j Hj. apply in_seq in Hj.
      rewrite erase_range_loop_spec by exact Hbegin.
      destruct (Nat.leb_spec begin j); simpl; [lia | reflexivity].
    + apply map_ext_in. intros j Hj. apply in_seq in Hj.
      rewrite erase_range_loop_spec by exact Hbegin.
      destruct (Nat.leb_spec begin j), (Nat.ltb_spec j (begin + (n - end_)));
        simpl; try reflexivity; lia.
  - intros offset Hout. unfold InplaceVector.erase_range.
    cbn [InplaceVector.data_].
    rewrite erase_range_loop_spec by exact Hbegin.
    destruct (Nat.leb_spec begin offset),
      (Nat.ltb_spec offset
         (begin + (N.to_nat (InplaceVector.size_ self) - end_)));
      simpl; try reflexivity; lia.
Qed.

(** X14. Erasing what was inserted. After [insert(index, val)] and
    [erase(index)] at the same offset the vector has its elements and its
    size again. *)
Theorem InplaceVector_insert_erase
  (self : InplaceVector.t T) (index : nat) (val : T) :
  (InplaceVector.size_ self + 1 < 2 ^ 64)%N ->
  index <= N.to_nat (InplaceVector.size_ self) ->
  InplaceVector.elements
    (InplaceVector.erase (InplaceVector.insert self index val) index)
  = InplaceVector.elements self
  /\ InplaceVector.size_
       (InplaceVector.erase (InplaceVector.insert self index val) index)
     = InplaceVector.size_ self.
Proof.
  intros Hsize Hindex.
  assert (Hgrown : InplaceVector.size_ (InplaceVector.insert self index val)
                   = (InplaceVector.size_ self + 1)%N)
    by now apply size_after_insert.
  assert (Hlen : List.length (firstn index (InplaceVector.elements self))
                 = index).
  { rewrite length_firstn. unfold InplaceVector.elements.
    rewrite length_map, length_seq. lia. }
  split.
  - rewrite erase_elements by (rewrite Hgrown; lia).
    rewrite insert_elements by assumption.
    rewrite firstn_app_exact by exact Hlen.
    change (firstn index (InplaceVector.elements self)
            ++ val :: skipn index (InplaceVector.elements self))
      with (firstn index (InplaceVector.elements self)
            ++ [val] ++ skipn index (InplaceVector.elements self)).
    rewrite app_assoc, skipn_app_exact
      by (rewrite length_app; simpl; lia).
    apply firstn_skipn.
  - unfold InplaceVector.erase at 1. cbn [InplaceVector.size_].
    rewrite Hgrown, size_after_erase by lia. lia.
Qed.

End InplaceVectorOperations.

Lemma InplaceVector_insert_witness :
  let self := {| InplaceVector.data_ := fun offset => offset;
                 InplaceVector.size_ := 3 |} in
  InplaceVector.elements (InplaceVector.insert self 1 7)
  = (firstn 1 (InplaceVector.elements self)
     ++ 7 :: skipn 1 (InplaceVector.elements self))%list
  /\ InplaceVector.size_ (InplaceVector.insert self 1 7)
     = (InplaceVector.size_ self + 1)%N
  /\ forall offset,
      offset < 1 \/ N.to_nat (InplaceVector.size_ self) < offset ->
      InplaceVector.data_ (InplaceVector.insert self 1 7) offset
      = InplaceVector.data_ self offset.
Proof.
  apply (InplaceVector_insert nat
           {| InplaceVector.data_ := fun offset => offset;
              InplaceVector.size_ := 3 |} 1 7).
  - vm_compute. reflexivity.
  - vm_compute. lia.
Defined.

Lemma InplaceVector_erase_witness :
  let self := {| InplaceVector.data_ := fun offset => offset;
                 InplaceVector.size_ := 3 |} in
  InplaceVector.elements (InplaceVector.erase self 0)
  = (firstn 0 (InplaceVector.elements self)
     ++ skipn 1 (InplaceVector.elements self))%list
  /\ InplaceVector.size_ (InplaceVector.erase self 0)
     = (InplaceVector.size_ self - 1)%N
  /\ forall offset,
      offset < 0 \/ N.to_nat (InplaceVector.size_ self) - 1 <= offset ->
      InplaceVector.data_ (InplaceVector.erase self 0) offset
      = InplaceVector.data_ self offset.
Proof.
  apply (InplaceVector_erase nat
           {| InplaceVector.data_ := fun offset => offset;
              InplaceVector.size_ := 3 |} 0).
  - vm_compute. reflexivity.
  - vm_compute. lia.
Defined.

Lemma InplaceVector_erase_range_witness :
  let self := {| InplaceVector.data_ := fun offset => offset;
                 InplaceVector.size_ := 5 |} in
  InplaceVector.elements (InplaceVector.erase_range self 1 3)
  = (firstn 1 (InplaceVector.elements self)
     ++ skipn 3 (InplaceVector.elements self))%list
  /\ InplaceVector.size_ (InplaceVector.erase_range self 1 3)
     = (InplaceVector.size_ self - N.of_nat (3 - 1))%N
  /\ forall offset,
      offset < 1 \/ 1 + (N.to_nat (InplaceVector.size_ self) - 3) <= offset ->
      InplaceVector.data_ (InplaceVector.erase_range self 1 3) offset
      = InplaceVector.data_ self offset.
Proof.
  apply (InplaceVector_erase_range nat
           {| InplaceVector.data_ := fun offset => offset;
              InplaceVector.size_ := 5 |} 1 3).
  - vm_compute. reflexivity.
  - lia.
  - vm_compute. lia.
Defined.

Lemma InplaceVector_insert_erase_witness :
  let self := {| InplaceVector.data_ := fun offset => offset;
                 InplaceVector.size_ := 3 |} in
  InplaceVector.elements (InplaceVector.erase (InplaceVector.insert self 3 9) 3)
  = InplaceVector.elements self
  /\ InplaceVector.size_
       (InplaceVector.erase (InplaceVector.insert self 3 9) 3)
     = InplaceVector.size_ self.
Proof.
  apply (InplaceVector_insert_erase nat
           {| InplaceVector.data_ := fun offset => offset;
              InplaceVector.size_ := 3 |} 3 9).
  - vm_compute. reflexivity.
  - vm_compute. lia.
Defined.

(** ** Seeds, dictionary and mutation *)

Section WrapperProperties.

Local Open Scope nat_scope.
Local Open Scope list_scope.

Variable ReadFileOrDirectory : string -> list FilePathAndData.t.
Variable ParseDictionary : string -> string + list string.

Lemma length_list_byte_of_string (s : string) :
  List.length (list_byte_of_string s) = String.length s.
Proof.
  unfold list_byte_of_string. rewrite length_map.
  induction s as [|c s IH]; simpl; [reflexivity | now rewrite IH].
Qed.

Lemma firstn_min_length (A : Type) (k : nat) (l : list A) :
  firstn (Nat.min (List.length l) k) l = firstn k l.
Proof.
  destruct (Nat.le_ge_cases (List.length l) k) as [H | H].
  - rewrite Nat.min_l, firstn_all, firstn_all2 by exact H. reflexivity.
  - now rewrite Nat.min_r.
Qed.

Lemma collect_seeds (files : list FilePathAndData.t) :
  forall out : list (list byte),
    fold_left
      (fun (out : list (list byte)) file =>
         out
         ++ [firstn
               (Nat.min (String.length (FilePathAndData.data file))
                  kByteArrayMaxLen)
               (list_byte_of_string (FilePathAndData.data file))])
      files out
    = out
      ++ map (fun file =>
                firstn kByteArrayMaxLen
                  (list_byte_of_string (FilePathAndData.data file)))
           files.
Proof.
  induction files as [|file files IH]; intros out; simpl.
  - now rewrite app_nil_r.
  - rewrite IH, <- app_assoc. simpl.
    now rewrite <- length_list_byte_of_string, firstn_min_length.
Qed.

(** X15. The seeds read from the corpus directory. Without the flag there
    are none; with it there is one seed per file that
    [ReadFileOrDirectory] returns, in the same order, holding the first
    [kByteArrayMaxLen] bytes of the file, so that no seed is longer than
    [kByteArrayMaxLen]. *)
Theorem ReadByteArraysFromDirectory_seeds (flag : string) :
  ReadByteArraysFromDirectory ReadFileOrDirectory flag
  = (if String.eqb flag ""
     then []
     else map (fun file =>
                 firstn kByteArrayMaxLen
                   (list_byte_of_string (FilePathAndData.data file)))
            (ReadFileOrDirectory flag))
  /\ Forall (fun seed => List.length seed <= kByteArrayMaxLen)
       (ReadByteArraysFromDirectory ReadFileOrDirectory flag).
Proof.
  assert (Heq : ReadByteArraysFromDirectory ReadFileOrDirectory flag
                = (if String.eqb flag ""
                   then []
                   else map (fun file =>
                               firstn kByteArrayMaxLen
                                 (list_byte_of_string
                                    (FilePathAndData.data file)))
                          (ReadFileOrDirectory flag))).
  { unfold ReadByteArraysFromDirectory.
    destruct (String.eqb flag ""); [reflexivity|].
    now rewrite collect_seeds. }
  split; [exact Heq|]. rewrite Heq.
  destruct (String.eqb flag ""); [constructor|].
  apply Forall_forall. intros seed Hin.
  apply in_map_iff in Hin as (file & <- & _). apply firstn_le_length.
Qed.

Lemma collect_entries (entries : list string) :
  forall out : list (list byte),
    fold_left
      (fun (out : list (list byte)) parsed_entry =>
         out ++ [list_byte_of_string parsed_entry])
      entries out
    = out ++ map list_byte_of_string entries.
Proof.
  induction entries as [|e entries IH]; intros out; simpl.
  - now rewrite app_nil_r.
  - now rewrite IH, <- app_assoc.
Qed.

Lemma collect_dictionary (files : list FilePathAndData.t) :
  forall so_far : Checked (list (list byte)),
    fold_left
      (fun (so_far : Checked (list (list byte))) file =>
         out <- so_far ;;
         match ParseDictionary (FilePathAndData.data file) with
         | inl status =>
             CheckFailure "parsed_entries.status().ok()"
               (absl.StrCat ["Could not parse dictionary file ";
                             FilePathAndData.path file; ": "; status])
         | inr parsed_entries =>
             Ok (fold_left
                   (fun (out : list (list byte)) parsed_entry =>
                      out ++ [list_byte_of_string parsed_entry])
                   parsed_entries out)
         end)
      files so_far
    = match so_far with
      | CheckFailure condition message => CheckFailure condition message
      | Ok out =>
          match find (unparsable ParseDictionary) files with
          | None =>
              Ok (out ++ concat (map (parsed_bytes ParseDictionary) files))
          | Some file =>
              CheckFailure "parsed_entries.status().ok()"
                (absl.StrCat
                   ["Could not parse dictionary file ";
                    FilePathAndData.path file; ": ";
                    match ParseDictionary (FilePathAndData.data file) with
                    | inl status => status
                    | inr _ => EmptyString
                    end])
          end
      end.
Proof.
  induction files as [|file files IH]; intros so_far.
  - destruct so_far as [out|]; simpl; [now rewrite app_nil_r | reflexivity].
  - cbn [fold_left]. rewrite IH.
    destruct so_far as [out|]; [|reflexivity].
    cbn [bind find map concat].
    change (unparsable ParseDictionary file)
      with (match ParseDictionary (FilePathAndData.data file) with
            | inl _ => true
            | inr _ => false
            end).
    change (parsed_bytes ParseDictionary file)
      with (match ParseDictionary (FilePathAndData.data file) with
            | inl _ => []
            | inr parsed_entries => map list_byte_of_string parsed_entries
            end).
    destruct (ParseDictionary (FilePathAndData.data file))
      as [status | es] eqn:Hparse; [cbv beta iota; now rewrite Hparse|].
    rewrite collect_entries.
    destruct (find (unparsable ParseDictionary) files); [reflexivity|].
    now rewrite <- app_assoc.
Qed.

(** X16. The dictionary is read from all files or not at all. Without the
    flag it is empty. With it, when [ParseDictionary] accepts every file
    that [ReadFileOrDirectory] returns, the dictionary holds the entries of
    all files, file after file, as byte arrays; otherwise the call stops at
    a failed check that names the first file that is not accepted, with the
    status of its parsing. *)
Theorem ReadByteArrayDictionaryFromFile_result (flag : string) :
  ReadByteArrayDictionaryFromFile ReadFileOrDirectory ParseDictionary flag
  = if String.eqb flag ""
    then Ok []
    else
      match find (unparsable ParseDictionary) (ReadFileOrDirectory flag) with
      | None =>
          Ok (concat (map (parsed_bytes ParseDictionary)
                        (ReadFileOrDirectory flag)))
      | Some file =>
          CheckFailure "parsed_entries.status().ok()"
            (absl.StrCat
               ["Could not parse dictionary file ";
                FilePathAndData.path file; ": ";
                match ParseDictionary (FilePathAndData.data file) with
                | inl status => status
                | inr _ => EmptyString
                end])
      end.
Proof.
  unfold ReadByteArrayDictionaryFromFile.
  destruct (String.eqb flag ""); [reflexivity|].
  now rewrite collect_dictionary.
Qed.

Variable BitGen : Type.
Variable prng_call : BitGen -> N * BitGen.
Variable Base_Mutate : list byte -> BitGen -> bool -> list byte * BitGen.

Lemma length_resize (n : nat) (v : list byte) : List.length (resize n v) = n.
Proof.
  unfold resize. rewrite length_app, length_firstn, repeat_length. lia.
Qed.

(** X17. A custom mutator that keeps to [max_size] keeps the value in the
    domain. When [LLVMFuzzerCustomMutator] is linked in and never returns
    more than the [max_size] it is given, the value after
    [ArbitraryByteVector::Mutate] has the size the mutator returned, which
    is at most the old size under [only_shrink] and at most
    [kByteArrayMaxLen] otherwise; the generator is called once. *)
Theorem Mutate_custom_size
  (mutator : list byte -> nat -> nat -> N -> list byte * nat)
  (val : list byte) (prng : BitGen) (only_shrink : bool) :
  (forall data size max_size seed,
      snd (mutator data size max_size seed) <= max_size) ->
  List.length
    (fst (Mutate BitGen prng_call (Some mutator) Base_Mutate
            val prng only_shrink))
  <= (if only_shrink then List.length val else kByteArrayMaxLen)
  /\ snd (Mutate BitGen prng_call (Some mutator) Base_Mutate
            val prng only_shrink)
     = snd (prng_call prng).
Proof.
  intros Hcontract. unfold Mutate.
  destruct (prng_call prng) as [drawn prng'].
  set (max_size := if only_shrink then List.length val else kByteArrayMaxLen).
  specialize (Hcontract (resize max_size val) (List.length val) max_size
                (drawn mod 2 ^ 32)%N).
  destruct (mutator (resize max_size val) (List.length val) max_size
              (drawn mod 2 ^ 32)%N) as [data new_size].
  cbn [fst snd] in *. now rewrite length_resize.
Qed.

End WrapperProperties.

Lemma Mutate_custom_size_witness :
  List.length
    (fst (Mutate nat (fun state => (N.of_nat state, S state))
            (Some (fun data size max_size seed => (rev data, max_size)))
            (fun val state only_shrink => (val, state))
            [x01; x02; x03] 5 true))
  <= (if true then List.length [x01; x02; x03] else kByteArrayMaxLen)
  /\ snd (Mutate nat (fun state => (N.of_nat state, S state))
            (Some (fun data size max_size seed => (rev data, max_size)))
            (fun val state only_shrink => (val, state))
            [x01; x02; x03] 5 true)
     = snd ((fun state => (N.of_nat state, S state)) 5).
Proof.
  apply (Mutate_custom_size nat (fun state => (N.of_nat state, S state))
           (fun val state only_shrink => (val, state))
           (fun data size max_size seed => (rev data, max_size))
           [x01; x02; x03] 5 true).
  intros data size max_size seed. simpl. lia.
Defined.
